(** * ralph-tui-linear: the Linear tracker plugin, embedded from
    [src/client.ts] (LinearApiClient and LinearTrackerPlugin) and the type
    declarations of [types.ts].

    Pure helpers are Rocq functions; the plugin's methods run in a small
    state-and-exception monad over the plugin object and the remote service.
    Maps ([Map<string, _>]) are [gmap string _]; JavaScript numbers that hold
    Linear priorities (GraphQL [Int]) are [Z]; optional fields are [option]. *)

From Stdlib Require Import ZArith List String Ascii Bool Lia Permutation Sorted.
From stdpp Require Import base option list strings gmap pretty.

Local Open Scope string_scope.
Local Open Scope Z_scope.

(* ===================================================================== *)
(** ** Types ([types.ts], and the API records of [client.ts])            *)
(* ===================================================================== *)

(** [LinearStateType] is the union 'backlog' | 'unstarted' | 'started' |
    'completed' | 'canceled' at compile time; at run time it is whatever
    string the service sent, which is why [mapStateToStatus] has a default. *)
Definition LinearStateType := string.

Record LinearState := {
  s_id : string;
  s_name : string;
  s_type : LinearStateType
}.

Record LinearLabel := { l_id : string; l_name : string }.

Record LinearUser := { u_id : string; u_name : string; u_email : string }.

Record LinearParent := {
  par_id : string; par_identifier : string; par_title : string
}.

Record LinearProject := { prj_id : string; prj_name : string }.

(** The children as the queries select them: id, identifier, title, state. *)
Record LinearChild := {
  c_id : string; c_identifier : string; c_title : string;
  c_state : LinearState
}.

(** An issue as a response carries it.  The interface declares [createdAt]
    as a string, but the [issueUpdate] mutation of [updateIssue] does not
    select it (nor parent, children, project), so it may be absent. *)
Record LinearIssue := {
  i_id : string;
  i_identifier : string;
  i_title : string;
  i_description : option string;
  i_priority : Z;
  i_state : LinearState;
  i_labels : list LinearLabel;
  i_assignee : option LinearUser;
  i_parent : option LinearParent;
  i_children : option (list LinearChild);
  i_project : option LinearProject;
  i_createdAt : option string;
  i_updatedAt : string
}.

Record LinearTeam := {
  tm_id : string; tm_name : string; tm_key : string;
  tm_states : list LinearState
}.

Inductive TrackerTaskStatus :=
  | open | in_progress | blocked | completed | cancelled.

Definition TaskPriority := Z.

(** The [metadata] object that [issueToTask] builds. *)
Record TaskMetadata := {
  md_identifier : string;
  md_stateId : string;
  md_stateName : string;
  md_projectId : option string;
  md_projectName : option string;
  md_childCount : nat;
  md_completedChildCount : nat
}.

Record TrackerTask := {
  t_id : string;
  t_title : string;
  t_status : TrackerTaskStatus;
  t_priority : TaskPriority;
  t_description : option string;
  t_labels : option (list string);
  t_type : option string;
  t_parentId : option string;
  t_dependsOn : option (list string);
  t_blocks : option (list string);
  t_assignee : option string;
  t_createdAt : option string;
  t_updatedAt : option string;
  t_iteration : option Z;
  t_metadata : option TaskMetadata
}.

Record TaskCompletionResult := {
  cr_success : bool;
  cr_message : string;
  cr_task : option TrackerTask;
  cr_error : option string
}.

Record SyncResult := {
  sr_success : bool;
  sr_message : string;
  sr_added : option nat;
  sr_updated : option nat;
  sr_removed : option nat;
  sr_error : option string;
  sr_syncedAt : string
}.

(** A field typed [X | X[]] in [TaskFilter]. *)
Inductive OneOrMany (A : Type) :=
  | One (x : A)
  | Many (xs : list A).
Arguments One {A} x.
Arguments Many {A} xs.

Record TaskFilter := {
  f_status : option (OneOrMany TrackerTaskStatus);
  f_labels : option (list string);
  f_priority : option (OneOrMany TaskPriority);
  f_parentId : option string;
  f_assignee : option string;
  f_type : option (OneOrMany string);
  f_ready : option bool;
  f_limit : option Z;
  f_offset : option Z;
  f_excludeIds : option (list string)
}.

Record ConflictInfo := {
  cf_taskId : string;
  cf_localVersion : TrackerTask;
  cf_remoteVersion : TrackerTask;
  cf_localUpdatedAt : string;
  cf_remoteUpdatedAt : string;
  cf_changedFields : list string
}.

Inductive Resolution := local | remote | merge.

(** Decidable equalities used for [===] and [Array.prototype.includes]. *)
#[global] Instance TrackerTaskStatus_eq_dec : EqDecision TrackerTaskStatus.
Proof. solve_decision. Defined.
#[global] Instance LinearState_eq_dec : EqDecision LinearState.
Proof. solve_decision. Defined.
#[global] Instance TaskMetadata_eq_dec : EqDecision TaskMetadata.
Proof. solve_decision. Defined.
#[global] Instance TrackerTask_eq_dec : EqDecision TrackerTask.
Proof. solve_decision. Defined.

(* ===================================================================== *)
(** ** JavaScript idioms                                                 *)
(* ===================================================================== *)

(** Truthiness of a [string | undefined]: the empty string is falsy. *)
Definition truthy_str (o : option string) : bool :=
  match o with
  | Some s => negb (String.eqb s "")
  | None => false
  end.

(** Truthiness of a [number | undefined] holding an integer. *)
Definition truthy_num (o : option Z) : bool :=
  match o with
  | Some n => negb (n =? 0)
  | None => false
  end.

(** [Array.isArray(v) ? v : [v]]. *)
Definition asArray {A} (v : OneOrMany A) : list A :=
  match v with
  | One x => [x]
  | Many xs => xs
  end.

(** [xs.includes(x)] on values compared with [===]. *)
Definition includes {A} `{EqDecision A} (xs : list A) (x : A) : bool :=
  existsb (fun y => bool_decide (y = x)) xs.

(** [xs.slice(n)] and [xs.slice(0, n)] for integer [n > 0]. *)
Definition slice_from {A} (n : Z) (xs : list A) : list A := drop (Z.to_nat n) xs.
Definition slice_to {A} (n : Z) (xs : list A) : list A := take (Z.to_nat n) xs.

(** [String.prototype.toLowerCase] on the ASCII letters. *)
Definition lower_ascii (c : ascii) : ascii :=
  let n := nat_of_ascii c in
  if (Nat.leb 65 n && Nat.leb n 90)%bool then ascii_of_nat (n + 32) else c.

Fixpoint toLowerCase (s : string) : string :=
  match s with
  | EmptyString => EmptyString
  | String c r => String (lower_ascii c) (toLowerCase r)
  end.

(* ===================================================================== *)
(** ** Helper functions of the plugin                                    *)
(* ===================================================================== *)

(** Map Linear state type to TrackerTaskStatus. *)
Definition mapStateToStatus (stateType : LinearStateType) : TrackerTaskStatus :=
  if String.eqb stateType "backlog" then open
  else if String.eqb stateType "unstarted" then open
  else if String.eqb stateType "started" then in_progress
  else if String.eqb stateType "completed" then completed
  else if String.eqb stateType "canceled" then cancelled
  else open.

(** Map TrackerTaskStatus to Linear state type.  The source's [default]
    arm ('unstarted') is not reachable from the five statuses. *)
Definition mapStatusToStateType (status : TrackerTaskStatus) : LinearStateType :=
  match status with
  | open => "unstarted"
  | in_progress => "started"
  | completed => "completed"
  | cancelled => "canceled"
  | blocked => "started"
  end.

(** Map Linear priority to TaskPriority. *)
Definition mapPriority (linearPriority : Z) : TaskPriority :=
  if linearPriority =? 0 then 2
  else Z.min 4 (Z.max 0 (linearPriority - 1)).

Definition terminalChild (c : LinearChild) : bool :=
  (String.eqb (s_type (c_state c)) "completed"
   || String.eqb (s_type (c_state c)) "canceled")%bool.

(** Convert Linear issue to TrackerTask. *)
Definition issueToTask (issue : LinearIssue) : TrackerTask :=
  let labels := map l_name (i_labels issue) in
  let isEpic := existsb (fun l => String.eqb (toLowerCase l) "epic") labels in
  {| t_id := i_id issue;
     t_title := i_identifier issue +:+ ": " +:+ i_title issue;
     t_status := mapStateToStatus (s_type (i_state issue));
     t_priority := mapPriority (i_priority issue);
     t_description := i_description issue;
     t_labels := Some labels;
     t_type := Some (if isEpic then "epic" else "task");
     t_parentId := par_id <$> i_parent issue;
     t_dependsOn := None;
     t_blocks := None;
     t_assignee := u_email <$> i_assignee issue;
     t_createdAt := i_createdAt issue;
     t_updatedAt := Some (i_updatedAt issue);
     t_iteration := None;
     t_metadata := Some
       {| md_identifier := i_identifier issue;
          md_stateId := s_id (i_state issue);
          md_stateName := s_name (i_state issue);
          md_projectId := prj_id <$> i_project issue;
          md_projectName := prj_name <$> i_project issue;
          md_childCount :=
            from_option (fun cs => length cs) 0%nat (i_children issue);
          md_completedChildCount :=
            from_option (fun cs => length (filter (fun c => terminalChild c = true) cs))
                        0%nat (i_children issue) |} |}.

Definition isTerminal (s : TrackerTaskStatus) : bool :=
  match s with
  | completed | cancelled => true
  | _ => false
  end.

(** [allTasks.find((t) => t.id === depId)]. *)
Definition findById (allTasks : list TrackerTask) (depId : string) : option TrackerTask :=
  List.find (fun t => String.eqb (t_id t) depId) allTasks.

(** The callback of [task.dependsOn.every]. *)
Definition depResolved (allTasks : list TrackerTask) (depId : string) : bool :=
  match findById allTasks depId with
  | None => true
  | Some depTask => isTerminal (t_status depTask)
  end.

(** Check if a task is ready (all dependencies resolved). *)
Definition checkTaskReady (task : TrackerTask) (allTasks : list TrackerTask) : bool :=
  match t_dependsOn task with
  | None => true
  | Some [] => true
  | Some deps => forallb (depResolved allTasks) deps
  end.

(** Filter tasks by criteria.  Each [if (filter.x)] guard of the source is a
    [match] on the truthiness of the field; [tasks] (the whole input) is what
    readiness is checked against. *)
Definition statusPred (f : TaskFilter) (t : TrackerTask) : bool :=
  match f_status f with
  | Some v => includes (asArray v) (t_status t)
  | None => true
  end.

Definition labelsPred (f : TaskFilter) (t : TrackerTask) : bool :=
  match f_labels f with
  | Some (l :: ls) =>
      forallb (fun label =>
                 match t_labels t with
                 | Some tl => includes tl label
                 | None => false
                 end) (l :: ls)
  | _ => true
  end.

Definition priorityPred (f : TaskFilter) (t : TrackerTask) : bool :=
  match f_priority f with
  | Some v => includes (asArray v) (t_priority t)
  | None => true
  end.

Definition parentPred (f : TaskFilter) (t : TrackerTask) : bool :=
  if truthy_str (f_parentId f) then bool_decide (t_parentId t = f_parentId f)
  else true.

Definition assigneePred (f : TaskFilter) (t : TrackerTask) : bool :=
  if truthy_str (f_assignee f) then bool_decide (t_assignee t = f_assignee f)
  else true.

Definition typeGiven (v : option (OneOrMany string)) : bool :=
  match v with
  | Some (One s) => truthy_str (Some s)
  | Some (Many _) => true
  | None => false
  end.

Definition typePred (f : TaskFilter) (t : TrackerTask) : bool :=
  match f_type f with
  | Some v =>
      if typeGiven (Some v) then
        match t_type t with
        | Some ty => (truthy_str (Some ty) && includes (asArray v) ty)%bool
        | None => false
        end
      else true
  | None => true
  end.

Definition excludePred (f : TaskFilter) (t : TrackerTask) : bool :=
  match f_excludeIds f with
  | Some (x :: xs) => negb (includes (x :: xs) (t_id t))
  | _ => true
  end.

Definition readyPred (f : TaskFilter) (tasks : list TrackerTask) (t : TrackerTask) : bool :=
  match f_ready f with
  | Some true => checkTaskReady t tasks
  | _ => true
  end.

Definition applyOffset {A} (f : TaskFilter) (l : list A) : list A :=
  match f_offset f with
  | Some n => if (truthy_num (Some n) && (0 <? n))%bool then slice_from n l else l
  | None => l
  end.

Definition applyLimit {A} (f : TaskFilter) (l : list A) : list A :=
  match f_limit f with
  | Some n => if (truthy_num (Some n) && (0 <? n))%bool then slice_to n l else l
  | None => l
  end.

Definition filterTasks (tasks : list TrackerTask) (filter : option TaskFilter)
  : list TrackerTask :=
  match filter with
  | None => tasks
  | Some f =>
      let result := tasks in
      let result := List.filter (statusPred f) result in
      let result := List.filter (labelsPred f) result in
      let result := List.filter (priorityPred f) result in
      let result := List.filter (parentPred f) result in
      let result := List.filter (assigneePred f) result in
      let result := List.filter (typePred f) result in
      let result := List.filter (excludePred f) result in
      let result := List.filter (readyPred f tasks) result in
      let result := applyOffset f result in
      let result := applyLimit f result in
      result
  end.

(** [tasks.sort((a, b) => a.priority - b.priority)]: [Array.prototype.sort]
    is stable (ECMAScript 2019), so its result is the stable ordering by
    priority, computed here by insertion from the right. *)
Fixpoint sortInsert (t : TrackerTask) (l : list TrackerTask) : list TrackerTask :=
  match l with
  | [] => [t]
  | x :: r =>
      if t_priority t <=? t_priority x then t :: x :: r
      else x :: sortInsert t r
  end.

Definition sortByPriority (l : list TrackerTask) : list TrackerTask :=
  foldr sortInsert [] l.

(** The body of [getNextTask] after the fetch. *)
Definition pickNext (tasks : list TrackerTask) : option TrackerTask :=
  match tasks with
  | [] => None
  | _ =>
      let sorted := sortByPriority tasks in
      match List.find (fun t => bool_decide (t_status t = in_progress)) sorted with
      | Some inProgress => Some inProgress
      | None => head sorted
      end
  end.

(** [{...filter, status: ['open', 'in_progress'], ready: true}]. *)
Definition emptyFilter : TaskFilter :=
  {| f_status := None; f_labels := None; f_priority := None;
     f_parentId := None; f_assignee := None; f_type := None;
     f_ready := None; f_limit := None; f_offset := None;
     f_excludeIds := None |}.

Definition nextTaskFilter (filter : option TaskFilter) : TaskFilter :=
  let f := default emptyFilter filter in
  {| f_status := Some (Many [open; in_progress]);
     f_labels := f_labels f; f_priority := f_priority f;
     f_parentId := f_parentId f; f_assignee := f_assignee f;
     f_type := f_type f;
     f_ready := Some true;
     f_limit := f_limit f; f_offset := f_offset f;
     f_excludeIds := f_excludeIds f |}.

(* ===================================================================== *)
(** ** The remote service and the plugin object                          *)
(* ===================================================================== *)

(** A thrown JavaScript value, as the message the handlers read from it
    ([err instanceof Error ? err.message : String(err)]). *)
Definition Err := string.

Inductive Outcome (A : Type) :=
  | Ok (a : A)
  | Throw (e : Err).
Arguments Ok {A} a.
Arguments Throw {A} e.

Record LinearApiClient := { apiKey : string }.

(** The [input] object of [updateIssue]. *)
Record UpdateInput := {
  in_stateId : option string;
  in_assigneeId : option string;
  in_labelIds : option (list string);
  in_description : option string
}.

(** What lies outside the program: the GraphQL endpoint behind
    [LinearApiClient.query] (one entry per query text of [client.ts]; each
    either throws or yields the typed [data]) and the clock behind
    [new Date().toISOString()].  [W] is the state of that outside world, so
    an answer may depend on everything sent before. *)
Record Env (W : Type) := {
  q_viewer : LinearApiClient -> W -> Outcome LinearUser * W;
  q_team : LinearApiClient -> string -> W -> Outcome LinearTeam * W;
  q_issuesByLabel :
    LinearApiClient -> string -> string -> W -> Outcome (list LinearIssue) * W;
  q_issue : LinearApiClient -> string -> W -> Outcome LinearIssue * W;
  q_issueUpdate :
    LinearApiClient -> string -> UpdateInput -> W -> Outcome (bool * LinearIssue) * W;
  q_commentCreate : LinearApiClient -> string -> string -> W -> Outcome bool * W;
  q_epics : LinearApiClient -> string -> W -> Outcome (list LinearIssue) * W;
  now : W -> string * W
}.
Arguments q_viewer {W}.
Arguments q_team {W}.
Arguments q_issuesByLabel {W}.
Arguments q_issue {W}.
Arguments q_issueUpdate {W}.
Arguments q_commentCreate {W}.
Arguments q_epics {W}.
Arguments now {W}.

Record SyncedEntry := { se_task : TrackerTask; se_updatedAt : string }.

(** The private fields of [LinearTrackerPlugin]. *)
Record Plugin := {
  client : option LinearApiClient;
  ready : bool;
  projectId : string;
  teamId : string;
  labelName : string;
  userId : string;
  epicId : string;
  taskCache : gmap string TrackerTask;
  stateCache : gmap string (list LinearState);
  lastSyncedTasks : gmap string SyncedEntry
}.

(** [new LinearTrackerPlugin()]. *)
Definition newPlugin : Plugin :=
  {| client := None; ready := false; projectId := ""; teamId := "";
     labelName := "ralph-tui"; userId := ""; epicId := "";
     taskCache := ∅; stateCache := ∅; lastSyncedTasks := ∅ |}.

Definition with_taskCache (m : gmap string TrackerTask) (p : Plugin) : Plugin :=
  {| client := client p; ready := ready p; projectId := projectId p;
     teamId := teamId p; labelName := labelName p; userId := userId p;
     epicId := epicId p;
     taskCache := m; stateCache := stateCache p;
     lastSyncedTasks := lastSyncedTasks p |}.

Definition with_stateCache (m : gmap string (list LinearState)) (p : Plugin) : Plugin :=
  {| client := client p; ready := ready p; projectId := projectId p;
     teamId := teamId p; labelName := labelName p; userId := userId p;
     epicId := epicId p;
     taskCache := taskCache p; stateCache := m;
     lastSyncedTasks := lastSyncedTasks p |}.

Definition with_lastSyncedTasks (m : gmap string SyncedEntry) (p : Plugin) : Plugin :=
  {| client := client p; ready := ready p; projectId := projectId p;
     teamId := teamId p; labelName := labelName p; userId := userId p;
     epicId := epicId p;
     taskCache := taskCache p; stateCache := stateCache p;
     lastSyncedTasks := m |}.

(** The cache after the fetched tasks were stored, one [set] per task. *)
Definition cacheAll (tasks : list TrackerTask) (m : gmap string TrackerTask)
  : gmap string TrackerTask :=
  foldl (fun m task => <[t_id task := task]> m) m tasks.

Section Engine.

Context {W : Type}.
Variable env : Env W.

(** A method body: it reads and writes the plugin object, talks to the
    outside world, and either returns or throws.  Writes made before a throw
    stay. *)
Definition M (A : Type) : Type := Plugin -> W -> Outcome A * Plugin * W.

Definition ret {A} (a : A) : M A := fun p w => (Ok a, p, w).

Definition throw {A} (e : Err) : M A := fun p w => (Throw e, p, w).

Definition bind {A B} (m : M A) (k : A -> M B) : M B :=
  fun p w =>
    match m p w with
    | (Ok a, p', w') => k a p' w'
    | (Throw e, p', w') => (Throw e, p', w')
    end.

(** [try { m } catch (err) { h err }]. *)
Definition try_catch {A} (m : M A) (h : Err -> M A) : M A :=
  fun p w =>
    match m p w with
    | (Ok a, p', w') => (Ok a, p', w')
    | (Throw e, p', w') => h e p' w'
    end.

Definition this : M Plugin := fun p w => (Ok p, p, w).

Definition update (f : Plugin -> Plugin) : M unit := fun p w => (Ok tt, f p, w).

(** A request to the outside world. *)
Definition request {A} (q : W -> Outcome A * W) : M A :=
  fun p w => let '(r, w') := q w in (r, p, w').

Definition clock : M string :=
  fun p w => let '(s, w') := now env w in (Ok s, p, w').

Notation "'let!' x ':=' m 'in' k" := (bind m (fun x => k))
  (at level 10, x name, m at level 100, k at level 200).
Notation "m ;; k" := (bind m (fun _ => k))
  (at level 100, k at level 200, right associativity).

(** *** LinearApiClient *)

Definition getViewer (c : LinearApiClient) : M LinearUser :=
  request (q_viewer env c).

Definition getTeam (c : LinearApiClient) (teamId : string) : M LinearTeam :=
  request (q_team env c teamId).

Definition getIssuesByLabel (c : LinearApiClient) (projectId labelName : string)
  : M (list LinearIssue) :=
  request (q_issuesByLabel env c projectId labelName).

Definition getIssue (c : LinearApiClient) (issueId : string) : M LinearIssue :=
  request (q_issue env c issueId).

Definition updateIssue (c : LinearApiClient) (issueId : string) (input : UpdateInput)
  : M LinearIssue :=
  let! data := request (q_issueUpdate env c issueId input) in
  if negb (fst data) then throw "Failed to update issue"
  else ret (snd data).

Definition addComment (c : LinearApiClient) (issueId body : string) : M unit :=
  request (q_commentCreate env c issueId body) ;; ret tt.

Definition getStates (c : LinearApiClient) (teamId : string) : M (list LinearState) :=
  let! team := getTeam c teamId in
  ret (tm_states team).

Definition client_getEpics (c : LinearApiClient) (projectId : string)
  : M (list LinearIssue) :=
  request (q_epics env c projectId).

(** *** LinearTrackerPlugin *)

Definition cacheSet (id : string) (task : TrackerTask) : M unit :=
  update (fun p => with_taskCache (<[id := task]> (taskCache p)) p).

Definition baselineSet (id : string) (task : TrackerTask) (updatedAt : string) : M unit :=
  update (fun p =>
            with_lastSyncedTasks
              (<[id := {| se_task := task; se_updatedAt := updatedAt |}]>
                 (lastSyncedTasks p)) p).

(** Get team workflow states (cached). *)
Definition getTeamStates : M (list LinearState) :=
  let! p := this in
  match client p with
  | None => ret []
  | Some c =>
      if negb (truthy_str (Some (teamId p))) then ret []
      else
        match stateCache p !! teamId p with
        | Some states => ret states
        | None =>
            let! states := getStates c (teamId p) in
            update (fun p' => with_stateCache (<[teamId p' := states]> (stateCache p')) p') ;;
            ret states
        end
  end.

(** Find state ID by type. *)
Definition findStateByType (targetType : LinearStateType) : M (option string) :=
  let! states := getTeamStates in
  ret (s_id <$> List.find (fun s => String.eqb (s_type s) targetType) states).

Definition getTasks (filter : option TaskFilter) : M (list TrackerTask) :=
  let! p := this in
  match client p with
  | None => ret []
  | Some c =>
      if negb (truthy_str (Some (projectId p))) then ret []
      else
        try_catch
          (let! issues := getIssuesByLabel c (projectId p) (labelName p) in
           let tasks := map issueToTask issues in
           update (fun p' => with_taskCache (cacheAll tasks (taskCache p')) p') ;;
           ret (filterTasks tasks filter))
          (fun _ => ret [])
  end.

Definition getTask (id : string) : M (option TrackerTask) :=
  let! p := this in
  match taskCache p !! id with
  | Some t => ret (Some t)
  | None =>
      match client p with
      | None => ret None
      | Some c =>
          try_catch
            (let! issue := getIssue c id in
             let task := issueToTask issue in
             cacheSet id task ;;
             ret (Some task))
            (fun _ => ret None)
      end
  end.

Definition getNextTask (filter : option TaskFilter) : M (option TrackerTask) :=
  let! tasks := getTasks (Some (nextTaskFilter filter)) in
  ret (pickNext tasks).

Definition completeTask (id : string) (reason : option string) : M TaskCompletionResult :=
  let! p := this in
  match client p with
  | None =>
      ret {| cr_success := false;
             cr_message := "Linear client not initialized";
             cr_task := None;
             cr_error := Some "Client not ready" |}
  | Some c =>
      try_catch
        (let! completedStateId := findStateByType "completed" in
         if negb (truthy_str completedStateId) then
           ret {| cr_success := false;
                  cr_message := "Could not find completed state";
                  cr_task := None;
                  cr_error := Some "No completed state found in team workflow" |}
         else
           let! updatedIssue :=
             updateIssue c id
               {| in_stateId := completedStateId; in_assigneeId := None;
                  in_labelIds := None; in_description := None |} in
           (if truthy_str reason
            then addComment c id ("Task completed by ralph-tui: " +:+ default "" reason)
            else ret tt) ;;
           let task := issueToTask updatedIssue in
           cacheSet id task ;;
           ret {| cr_success := true;
                  cr_message := "Task " +:+ i_identifier updatedIssue +:+ " marked as complete";
                  cr_task := Some task;
                  cr_error := None |})
        (fun err =>
           ret {| cr_success := false;
                  cr_message := "Failed to complete task " +:+ id;
                  cr_task := None;
                  cr_error := Some err |})
  end.

Definition updateTaskStatus (id : string) (status : TrackerTaskStatus)
  : M (option TrackerTask) :=
  let! p := this in
  match client p with
  | None => ret None
  | Some c =>
      try_catch
        (let targetStateType := mapStatusToStateType status in
         let! stateId := findStateByType targetStateType in
         if negb (truthy_str stateId) then ret None
         else
           let! updatedIssue :=
             updateIssue c id
               {| in_stateId := stateId; in_assigneeId := None;
                  in_labelIds := None; in_description := None |} in
           let task := issueToTask updatedIssue in
           cacheSet id task ;;
           ret (Some task))
        (fun _ => ret None)
  end.

(** Claim a task - assign to current user and set to In Progress. *)
Definition claimTask (id : string) : M (option TrackerTask) :=
  let! p := this in
  match client p with
  | None => ret None
  | Some c =>
      if negb (truthy_str (Some (userId p))) then ret None
      else
        try_catch
          (let! inProgressStateId := findStateByType "started" in
           let! p1 := this in
           let! updatedIssue :=
             updateIssue c id
               {| in_stateId := inProgressStateId;
                  in_assigneeId := Some (userId p1);
                  in_labelIds := None; in_description := None |} in
           let task := issueToTask updatedIssue in
           cacheSet id task ;;
           baselineSet id task (i_updatedAt updatedIssue) ;;
           ret (Some task))
          (fun _ => ret None)
  end.

Definition isComplete (filter : option TaskFilter) : M bool :=
  let! tasks := getTasks filter in
  ret (forallb (fun t => isTerminal (t_status t)) tasks).

(** One turn of the loop of [sync]. *)
Definition syncStep (acc : nat * nat * Plugin) (issue : LinearIssue) : nat * nat * Plugin :=
  let '(added, updated, p) := acc in
  let task := issueToTask issue in
  let cached := taskCache p !! t_id task in
  let '(added, updated) :=
    match cached with
    | None => (S added, updated)
    | Some c =>
        if bool_decide (t_updatedAt c <> t_updatedAt task)
        then (added, S updated) else (added, updated)
    end in
  let p := with_taskCache (<[t_id task := task]> (taskCache p)) p in
  let p :=
    with_lastSyncedTasks
      (<[t_id task := {| se_task := task; se_updatedAt := i_updatedAt issue |}]>
         (lastSyncedTasks p)) p in
  (added, updated, p).

Definition sync : M SyncResult :=
  let notReady : M SyncResult :=
    let! syncedAt := clock in
    ret {| sr_success := false;
           sr_message := "Linear client not initialized";
           sr_added := None; sr_updated := None; sr_removed := None;
           sr_error := Some "Client not ready";
           sr_syncedAt := syncedAt |} in
  let! p := this in
  match client p with
  | None => notReady
  | Some c =>
      if negb (truthy_str (Some (projectId p))) then notReady
      else
        try_catch
          (let! issues := getIssuesByLabel c (projectId p) (labelName p) in
           let! p0 := this in
           let '(added, updated, p1) := foldl syncStep (0%nat, 0%nat, p0) issues in
           update (fun _ => p1) ;;
           let! syncedAt := clock in
           ret {| sr_success := true;
                  sr_message :=
                    "Synced " +:+ pretty (length issues) +:+ " tasks from Linear";
                  sr_added := Some added; sr_updated := Some updated;
                  sr_removed := None;
                  sr_error := None;
                  sr_syncedAt := syncedAt |})
          (fun err =>
             let! syncedAt := clock in
             ret {| sr_success := false;
                    sr_message := "Failed to sync with Linear";
                    sr_added := None; sr_updated := None; sr_removed := None;
                    sr_error := Some err;
                    sr_syncedAt := syncedAt |})
  end.

Definition isTaskReady (id : string) : M bool :=
  let! task := getTask id in
  match task with
  | None => ret false
  | Some task =>
      let! allTasks := getTasks None in
      ret (checkTaskReady task allTasks)
  end.

(** The four watched fields, in the order the source pushes them. *)
Definition changedFieldsOf (base remoteTask : TrackerTask) : list string :=
  (if bool_decide (t_status base <> t_status remoteTask) then ["status"] else [])
  ++ (if bool_decide (t_title base <> t_title remoteTask) then ["title"] else [])
  ++ (if bool_decide (t_description base <> t_description remoteTask)
      then ["description"] else [])
  ++ (if bool_decide (t_assignee base <> t_assignee remoteTask) then ["assignee"] else []).

(** Detect conflicts between local and remote versions. *)
Definition detectConflict (taskId : string) : M (option ConflictInfo) :=
  let! p := this in
  match client p with
  | None => ret None
  | Some c =>
      match lastSyncedTasks p !! taskId with
      | None => ret None
      | Some lastSynced =>
          try_catch
            (let! remoteIssue := getIssue c taskId in
             let remoteTask := issueToTask remoteIssue in
             if bool_decide (i_updatedAt remoteIssue <> se_updatedAt lastSynced) then
               let changedFields := changedFieldsOf (se_task lastSynced) remoteTask in
               if (0 <? length changedFields)%nat then
                 ret (Some {| cf_taskId := taskId;
                              cf_localVersion := se_task lastSynced;
                              cf_remoteVersion := remoteTask;
                              cf_localUpdatedAt := se_updatedAt lastSynced;
                              cf_remoteUpdatedAt := i_updatedAt remoteIssue;
                              cf_changedFields := changedFields |})
               else ret None
             else ret None)
            (fun _ => ret None)
      end
  end.

(** Resolve conflict by choosing a version. *)
Definition resolveConflict (taskId : string) (resolution : Resolution)
  : M (option TrackerTask) :=
  let! p := this in
  match client p with
  | None => ret None
  | Some c =>
      let! conflict := detectConflict taskId in
      match conflict with
      | None => getTask taskId
      | Some conflict =>
          match resolution with
          | remote =>
              cacheSet taskId (cf_remoteVersion conflict) ;;
              baselineSet taskId (cf_remoteVersion conflict) (cf_remoteUpdatedAt conflict) ;;
              ret (Some (cf_remoteVersion conflict))
          | local =>
              let stateType := mapStatusToStateType (t_status (cf_localVersion conflict)) in
              let! stateId := findStateByType stateType in
              if truthy_str stateId then
                let! updated :=
                  updateIssue c taskId
                    {| in_stateId := stateId; in_assigneeId := None;
                       in_labelIds := None;
                       in_description := t_description (cf_localVersion conflict) |} in
                let task := issueToTask updated in
                cacheSet taskId task ;;
                baselineSet taskId task (i_updatedAt updated) ;;
                ret (Some task)
              else ret (Some (cf_remoteVersion conflict))
          | merge => ret (Some (cf_remoteVersion conflict))
          end
      end
  end.

Definition getEpics : M (list TrackerTask) :=
  let! p := this in
  match client p with
  | None => ret []
  | Some c =>
      if negb (truthy_str (Some (projectId p))) then ret []
      else
        try_catch
          (let! epics := client_getEpics c (projectId p) in
           ret (map issueToTask epics))
          (fun _ => ret [])
  end.

Definition dispose : M unit :=
  update (fun p =>
            {| client := None; ready := false; projectId := projectId p;
               teamId := teamId p; labelName := labelName p; userId := userId p;
               epicId := epicId p;
               taskCache := ∅; stateCache := ∅; lastSyncedTasks := ∅ |}).

End Engine.

Arguments M W A : clear implicits.

(* ===================================================================== *)
(** ** A scripted service, for running the methods on concrete inputs    *)
(* ===================================================================== *)

Module Scenario.

Inductive Call :=
  | CViewer
  | CTeam (teamId : string)
  | CIssuesByLabel (projectId labelName : string)
  | CIssue (issueId : string)
  | CIssueUpdate (issueId : string) (input : UpdateInput)
  | CCommentCreate (issueId body : string)
  | CEpics (projectId : string).

(** The service holds issues and one team's workflow; [w_reject] makes it
    answer mutations with [success: false], [w_teamDown] makes the team query
    fail in transport; [w_log] records the requests received, latest first. *)
Record World := {
  w_issues : list LinearIssue;
  w_states : list LinearState;
  w_reject : bool;
  w_teamDown : bool;
  w_time : string;
  w_log : list Call
}.

Definition logged (c : Call) (w : World) : World :=
  {| w_issues := w_issues w; w_states := w_states w; w_reject := w_reject w;
     w_teamDown := w_teamDown w; w_time := w_time w; w_log := c :: w_log w |}.

Definition stored (issues : list LinearIssue) (w : World) : World :=
  {| w_issues := issues; w_states := w_states w; w_reject := w_reject w;
     w_teamDown := w_teamDown w; w_time := w_time w; w_log := w_log w |}.

Definition me : LinearUser :=
  {| u_id := "user-1"; u_name := "Ralph"; u_email := "ralph@example.com" |}.

Definition lookupIssue (id : string) (w : World) : option LinearIssue :=
  List.find (fun i => String.eqb (i_id i) id) (w_issues w).

(** The issue after an accepted mutation. *)
Definition applyInput (w : World) (input : UpdateInput) (i : LinearIssue) : LinearIssue :=
  {| i_id := i_id i; i_identifier := i_identifier i; i_title := i_title i;
     i_description :=
       match in_description input with Some d => Some d | None => i_description i end;
     i_priority := i_priority i;
     i_state :=
       match in_stateId input with
       | Some sid =>
           default (i_state i)
                   (List.find (fun s => String.eqb (s_id s) sid) (w_states w))
       | None => i_state i
       end;
     i_labels := i_labels i;
     i_assignee :=
       match in_assigneeId input with Some _ => Some me | None => i_assignee i end;
     i_parent := i_parent i; i_children := i_children i; i_project := i_project i;
     i_createdAt := i_createdAt i; i_updatedAt := w_time w |}.

(** What the [issueUpdate] mutation selects of it. *)
Definition mutationView (i : LinearIssue) : LinearIssue :=
  {| i_id := i_id i; i_identifier := i_identifier i; i_title := i_title i;
     i_description := i_description i; i_priority := i_priority i;
     i_state := i_state i; i_labels := i_labels i; i_assignee := i_assignee i;
     i_parent := None; i_children := None; i_project := None;
     i_createdAt := None; i_updatedAt := i_updatedAt i |}.

Definition replaceIssue (i : LinearIssue) (l : list LinearIssue) : list LinearIssue :=
  map (fun j => if String.eqb (i_id j) (i_id i) then i else j) l.

Definition service : Env World :=
  {| q_viewer := fun _ w => (Ok me, logged CViewer w);
     q_team := fun _ tid w =>
       (if w_teamDown w then Throw "Linear API error: 503 Service Unavailable"
        else Ok {| tm_id := tid; tm_name := "Team"; tm_key := "PIC";
                   tm_states := w_states w |},
        logged (CTeam tid) w);
     q_issuesByLabel := fun _ pid lbl w =>
       (Ok (w_issues w), logged (CIssuesByLabel pid lbl) w);
     q_issue := fun _ id w =>
       (match lookupIssue id w with
        | Some i => Ok i
        | None => Throw "Linear GraphQL error: Entity not found"
        end, logged (CIssue id) w);
     q_issueUpdate := fun _ id input w =>
       match lookupIssue id w with
       | None => (Throw "Linear GraphQL error: Entity not found",
                  logged (CIssueUpdate id input) w)
       | Some i =>
           if w_reject w then (Ok (false, i), logged (CIssueUpdate id input) w)
           else
             let i' := applyInput w input i in
             (Ok (true, mutationView i'),
              logged (CIssueUpdate id input) (stored (replaceIssue i' (w_issues w)) w))
       end;
     q_commentCreate := fun _ id body w => (Ok true, logged (CCommentCreate id body) w);
     q_epics := fun _ pid w => (Ok [], logged (CEpics pid) w);
     now := fun w => (w_time w, w) |}.

Definition todo : LinearState := {| s_id := "st-todo"; s_name := "Todo"; s_type := "unstarted" |}.
Definition doing : LinearState := {| s_id := "st-doing"; s_name := "In Progress"; s_type := "started" |}.
Definition finished : LinearState := {| s_id := "st-done"; s_name := "Done"; s_type := "completed" |}.

Definition mkIssue (id ident title : string) (prio : Z) (st : LinearState)
                   (updatedAt : string) : LinearIssue :=
  {| i_id := id; i_identifier := ident; i_title := title;
     i_description := None; i_priority := prio; i_state := st;
     i_labels := [{| l_id := "lbl-1"; l_name := "ralph-tui" |}];
     i_assignee := None; i_parent := None; i_children := None;
     i_project := Some {| prj_id := "proj-1"; prj_name := "Project" |};
     i_createdAt := Some "2025-01-01T00:00:00.000Z"; i_updatedAt := updatedAt |}.

Definition issue1 : LinearIssue :=
  mkIssue "id-1" "PIC-1" "Write parser" 3 todo "2025-01-02T00:00:00.000Z".

(** [issue1] after somebody moved it to In Progress on the service. *)
Definition issue1_moved : LinearIssue :=
  mkIssue "id-1" "PIC-1" "Write parser" 3 doing "2025-01-03T00:00:00.000Z".

(** An initialized plugin ([initialize] with an API key, ids and a
    successful [getViewer]). *)
Definition plugin0 : Plugin :=
  {| client := Some {| apiKey := "lin_api_key" |}; ready := true;
     projectId := "proj-1"; teamId := "team-1"; labelName := "ralph-tui";
     userId := "user-1"; epicId := "";
     taskCache := ∅; stateCache := ∅; lastSyncedTasks := ∅ |}.

(** The plugin after it synced [issue1]. *)
Definition plugin1 : Plugin :=
  with_lastSyncedTasks
    {[ "id-1" := {| se_task := issueToTask issue1; se_updatedAt := i_updatedAt issue1 |} ]}
    (with_taskCache {[ "id-1" := issueToTask issue1 ]} plugin0).

Definition world (issues : list LinearIssue) (states : list LinearState)
                 (reject teamDown : bool) : World :=
  {| w_issues := issues; w_states := states; w_reject := reject;
     w_teamDown := teamDown; w_time := "2025-01-04T00:00:00.000Z"; w_log := [] |}.

(** The three tasks of the spec's example for [getNextTask]: A open with
    priority 3, B in_progress with priority 1, C open with priority 0. *)
Definition issueA : LinearIssue :=
  mkIssue "A" "PIC-10" "Task A" 4 todo "2025-01-02T00:00:00.000Z".
Definition issueB : LinearIssue :=
  mkIssue "B" "PIC-11" "Task B" 2 doing "2025-01-02T00:00:00.000Z".
Definition issueC : LinearIssue :=
  mkIssue "C" "PIC-12" "Task C" 1 todo "2025-01-02T00:00:00.000Z".

(** A task as a caller of [checkTaskReady] or [filterTasks] may build it. *)
Definition mkTask (id : string) (status : TrackerTaskStatus) (prio : Z)
                  (labels deps : list string) : TrackerTask :=
  {| t_id := id; t_title := id; t_status := status; t_priority := prio;
     t_description := None; t_labels := Some labels; t_type := Some "task";
     t_parentId := None;
     t_dependsOn := match deps with [] => None | _ => Some deps end;
     t_blocks := None; t_assignee := None; t_createdAt := None;
     t_updatedAt := None; t_iteration := None; t_metadata := None |}.

End Scenario.

(* ===================================================================== *)
(** ** Set-up, health check and epic context of the plugin               *)
(* ===================================================================== *)

(** [a || b] on values that are strings or undefined. *)
Definition orElse (a b : option string) : option string :=
  if truthy_str a then a else b.

(** [a || ''] and [a || fallback]. *)
Definition orString (a : option string) (fallback : string) : string :=
  if truthy_str a then default fallback a else fallback.

Definition with_epicId (e : string) (p : Plugin) : Plugin :=
  {| client := client p; ready := ready p; projectId := projectId p;
     teamId := teamId p; labelName := labelName p; userId := userId p;
     epicId := e;
     taskCache := taskCache p; stateCache := stateCache p;
     lastSyncedTasks := lastSyncedTasks p |}.

Definition with_ready (b : bool) (p : Plugin) : Plugin :=
  {| client := client p; ready := b; projectId := projectId p;
     teamId := teamId p; labelName := labelName p; userId := userId p;
     epicId := epicId p;
     taskCache := taskCache p; stateCache := stateCache p;
     lastSyncedTasks := lastSyncedTasks p |}.

(** The assignments of [initialize] between the API-key check and the
    connection test. *)
Definition with_connection (c : LinearApiClient) (project team label : string)
                           (p : Plugin) : Plugin :=
  {| client := Some c; ready := ready p; projectId := project;
     teamId := team; labelName := label; userId := userId p;
     epicId := epicId p;
     taskCache := taskCache p; stateCache := stateCache p;
     lastSyncedTasks := lastSyncedTasks p |}.

(** [this.userId = viewer.id; this.ready = true]. *)
Definition with_viewer (uid : string) (p : Plugin) : Plugin :=
  {| client := client p; ready := true; projectId := projectId p;
     teamId := teamId p; labelName := labelName p; userId := uid;
     epicId := epicId p;
     taskCache := taskCache p; stateCache := stateCache p;
     lastSyncedTasks := lastSyncedTasks p |}.

(** The object [getPrdContext] returns. *)
Record PrdContext := {
  prd_name : string;
  prd_description : option string;
  prd_content : string;
  prd_completedCount : nat;
  prd_totalCount : nat
}.

Section Setup.

Context {W : Type}.
Variable env : Env W.

(** [process.env], as far as the plugin reads it. *)
Variable processEnv : gmap string string.

Notation "'let!' x ':=' m 'in' k" := (bind m (fun x => k))
  (at level 10, x name, m at level 100, k at level 200).
Notation "m ;; k" := (bind m (fun _ => k))
  (at level 100, k at level 200, right associativity).

(** [initialize(config)].  The config object is taken with string values, as
    the source's casts assume; the [config] field it is also stored in is
    read by no method and is not part of [Plugin]. *)
Definition initialize (config : gmap string string) : M W unit :=
  let apiKey := orElse (config !! "apiKey") (processEnv !! "LINEAR_API_KEY") in
  if negb (truthy_str apiKey) then update (with_ready false)
  else
    let c := {| apiKey := default "" apiKey |} in
    update (with_connection c
              (orString (orElse (config !! "projectId") (processEnv !! "LINEAR_PROJECT_ID")) "")
              (orString (orElse (config !! "teamId") (processEnv !! "LINEAR_TEAM_ID")) "")
              (orString (orElse (config !! "labelName") (processEnv !! "LINEAR_LABEL_NAME"))
                        "ralph-tui")) ;;
    try_catch
      (let! viewer := getViewer env c in
       update (with_viewer (u_id viewer)))
      (fun _ => update (with_ready false)).

Definition isReady : M W bool :=
  let! p := this in
  match client p with
  | None => ret false
  | Some c =>
      try_catch (getViewer env c ;; ret true) (fun _ => ret false)
  end.

(** [validateSetup(answers)]: [None] is the source's [null]. *)
Definition validateSetup (answers : gmap string string) : M W (option string) :=
  let apiKey := orElse (answers !! "apiKey") (processEnv !! "LINEAR_API_KEY") in
  if negb (truthy_str apiKey) then
    ret (Some "Linear API key is required (either in config or LINEAR_API_KEY environment variable)")
  else
    let testClient := {| apiKey := default "" apiKey |} in
    try_catch
      (getViewer env testClient ;; ret None)
      (fun err => ret (Some ("Failed to connect to Linear: " +:+ err))).

Definition setEpicId (epicId : string) : M W unit := update (with_epicId epicId).

Definition getEpicId : M W string :=
  let! p := this in ret (epicId p).

Definition parentFilter (parentId : string) : TaskFilter :=
  {| f_status := None; f_labels := None; f_priority := None;
     f_parentId := Some parentId; f_assignee := None; f_type := None;
     f_ready := None; f_limit := None; f_offset := None;
     f_excludeIds := None |}.

Definition getPrdContext : M W (option PrdContext) :=
  let! p := this in
  match client p with
  | None => ret None
  | Some c =>
      if negb (truthy_str (Some (epicId p))) then ret None
      else
        try_catch
          (let! epic := getIssue env c (epicId p) in
           let! p1 := this in
           let! tasks := getTasks env (Some (parentFilter (epicId p1))) in
           let completedCount :=
             length (List.filter (fun t => isTerminal (t_status t)) tasks) in
           ret (Some {| prd_name := i_title epic;
                        prd_description := i_description epic;
                        prd_content := orString (i_description epic) "";
                        prd_completedCount := completedCount;
                        prd_totalCount := length tasks |}))
          (fun _ => ret None)
  end.

End Setup.

(** Setters of single filter fields, to compare filters. *)
Definition filter_with_ready (r : option bool) (f : TaskFilter) : TaskFilter :=
  {| f_status := f_status f; f_labels := f_labels f; f_priority := f_priority f;
     f_parentId := f_parentId f; f_assignee := f_assignee f; f_type := f_type f;
     f_ready := r; f_limit := f_limit f; f_offset := f_offset f;
     f_excludeIds := f_excludeIds f |}.


(** The loop of [sync] over the fetched issues. *)
Definition syncAll (issues : list LinearIssue) (p : Plugin) : nat * nat * Plugin :=
  foldl syncStep (0%nat, 0%nat, p) issues.

(** The baseline entry [sync] and [claimTask] record for an issue. *)
Definition baselineOf (issue : LinearIssue) : SyncedEntry :=
  {| se_task := issueToTask issue; se_updatedAt := i_updatedAt issue |}.

(** The baseline store after [sync] recorded the fetched issues, one [set]
    per issue. *)
Definition baselineAll (issues : list LinearIssue) (m : gmap string SyncedEntry)
  : gmap string SyncedEntry :=
  foldl (fun m issue => <[i_id issue := baselineOf issue]> m) m issues.

(** A plugin with both stores replaced. *)
Definition stores (cache : gmap string TrackerTask) (baseline : gmap string SyncedEntry)
                  (p : Plugin) : Plugin :=
  with_lastSyncedTasks baseline (with_taskCache cache p).

(** The result object of a successful [sync]. *)
Definition syncReport (n added updated : nat) (syncedAt : string) : SyncResult :=
  {| sr_success := true;
     sr_message := "Synced " +:+ pretty n +:+ " tasks from Linear";
     sr_added := Some added; sr_updated := Some updated; sr_removed := None;
     sr_error := None;
     sr_syncedAt := syncedAt |}.

(** The plugin after [dispose]. *)
Definition disposed (p : Plugin) : Plugin :=
  {| client := None; ready := false; projectId := projectId p;
     teamId := teamId p; labelName := labelName p; userId := userId p;
     epicId := epicId p;
     taskCache := ∅; stateCache := ∅; lastSyncedTasks := ∅ |}.

Definition clientNotReady : TaskCompletionResult :=
  {| cr_success := false;
     cr_message := "Linear client not initialized";
     cr_task := None;
     cr_error := Some "Client not ready" |}.

(* ===================================================================== *)
(** ** Notions used to state the properties                              *)
(* ===================================================================== *)

(** The spec's reading of a filter: one condition per criterion, all of which
    must hold.  A criterion that is absent (or falsy: an empty parent id,
    assignee or type string, an empty label or exclusion list) imposes
    nothing. *)
Definition spec_matches (f : TaskFilter) (tasks : list TrackerTask) (t : TrackerTask)
  : Prop :=
  (forall v, f_status f = Some v -> In (t_status t) (asArray v)) /\
  (forall ls l, f_labels f = Some ls -> In l ls ->
                exists tl, t_labels t = Some tl /\ In l tl) /\
  (forall v, f_priority f = Some v -> In (t_priority t) (asArray v)) /\
  (forall pid, f_parentId f = Some pid -> pid <> "" -> t_parentId t = Some pid) /\
  (forall a, f_assignee f = Some a -> a <> "" -> t_assignee t = Some a) /\
  (forall v, f_type f = Some v -> v <> One "" ->
             exists ty, t_type t = Some ty /\ ty <> "" /\ In ty (asArray v)) /\
  (forall xs, f_excludeIds f = Some xs -> ~ In (t_id t) xs) /\
  (f_ready f = Some true -> checkTaskReady t tasks = true).

(** The eight predicates of [filterTasks] at once. *)
Definition matchesAll (f : TaskFilter) (tasks : list TrackerTask) (t : TrackerTask)
  : bool :=
  statusPred f t && labelsPred f t && priorityPred f t && parentPred f t
  && assigneePred f t && typePred f t && excludePred f t && readyPred f tasks t.


(** At least one of the four watched fields differs. *)
Definition watchedDiffer (base remoteTask : TrackerTask) : Prop :=
  t_status base <> t_status remoteTask \/
  t_title base <> t_title remoteTask \/
  t_description base <> t_description remoteTask \/
  t_assignee base <> t_assignee remoteTask.

(** The record [detectConflict] builds from a baseline and a fetched issue. *)
Definition conflictRecord (taskId : string) (lastSynced : SyncedEntry)
                          (remoteIssue : LinearIssue) : ConflictInfo :=
  {| cf_taskId := taskId;
     cf_localVersion := se_task lastSynced;
     cf_remoteVersion := issueToTask remoteIssue;
     cf_localUpdatedAt := se_updatedAt lastSynced;
     cf_remoteUpdatedAt := i_updatedAt remoteIssue;
     cf_changedFields := changedFieldsOf (se_task lastSynced) (issueToTask remoteIssue) |}.

(** The plugin after the 'remote' resolution stored [conflict]. *)
Definition acceptRemote (taskId : string) (conflict : ConflictInfo) (p : Plugin) : Plugin :=
  with_lastSyncedTasks
    (<[taskId := {| se_task := cf_remoteVersion conflict;
                    se_updatedAt := cf_remoteUpdatedAt conflict |}]>
       (lastSyncedTasks p))
    (with_taskCache (<[taskId := cf_remoteVersion conflict]> (taskCache p)) p).

(** A method body that returns on every plugin state and every world. *)
Definition never_throws {W A : Type} (m : M W A) : Prop :=
  forall p w, exists a p' w', m p w = (Ok a, p', w').

(** The first workflow state of a type, as [findStateByType] looks it up. *)
Definition stateOfType (states : list LinearState) (ty : LinearStateType)
  : option LinearState :=
  List.find (fun s => String.eqb (s_type s) ty) states.

(** The [input] objects of [completeTask] / [updateTaskStatus] and of
    [claimTask]. *)
Definition stateInput (stateId : option string) : UpdateInput :=
  {| in_stateId := stateId; in_assigneeId := None;
     in_labelIds := None; in_description := None |}.

Definition claimInput (stateId : option string) (userId : string) : UpdateInput :=
  {| in_stateId := stateId; in_assigneeId := Some userId;
     in_labelIds := None; in_description := None |}.

(** The three result objects of [completeTask] on a connected plugin. *)
Definition noCompletedState : TaskCompletionResult :=
  {| cr_success := false;
     cr_message := "Could not find completed state";
     cr_task := None;
     cr_error := Some "No completed state found in team workflow" |}.

Definition completionFailed (id : string) (err : Err) : TaskCompletionResult :=
  {| cr_success := false;
     cr_message := "Failed to complete task " +:+ id;
     cr_task := None;
     cr_error := Some err |}.

Definition completionDone (updatedIssue : LinearIssue) : TaskCompletionResult :=
  {| cr_success := true;
     cr_message := "Task " +:+ i_identifier updatedIssue +:+ " marked as complete";
     cr_task := Some (issueToTask updatedIssue);
     cr_error := None |}.

(** The plugin after [claimTask] stored the updated issue. *)
Definition claimed (id : string) (updatedIssue : LinearIssue) (p : Plugin) : Plugin :=
  with_lastSyncedTasks
    (<[id := {| se_task := issueToTask updatedIssue;
                se_updatedAt := i_updatedAt updatedIssue |}]> (lastSyncedTasks p))
    (with_taskCache (<[id := issueToTask updatedIssue]> (taskCache p)) p).

(* ===================================================================== *)
(** ** Status and priority translation                                   *)
(* ===================================================================== *)

Section Translator.

Lemma mapStateToStatus_other (s : string) :
  s <> "backlog" -> s <> "unstarted" -> s <> "started" ->
  s <> "completed" -> s <> "canceled" ->
  mapStateToStatus s = open.
Proof.
  intros Hb Hu Hs Hc Hx. unfold mapStateToStatus.
  repeat match goal with
         | |- context [String.eqb s ?k] =>
             destruct (String.eqb_spec s k); [congruence |]
         end.
  reflexivity.
Qed.

Lemma mapStateToStatus_range (s : string) :
  mapStateToStatus s <> blocked.
Proof.
  unfold mapStateToStatus.
  repeat match goal with
         | |- context [String.eqb s ?k] => destruct (String.eqb s k)
         end; discriminate.
Qed.

(** C6. [mapStateToStatus] (the spec's toUnifiedStatus) and
    [mapStatusToStateType] (toRemoteType) are functions into the status and
    state-type vocabularies with no failure value: the five known remote
    types map as in the table, every other string maps to [open]; in the
    other direction open goes to unstarted and never to backlog, in_progress
    and blocked both go to started, completed to completed, cancelled to
    canceled. *)
Theorem status_translation_table :
  mapStateToStatus "backlog" = open /\
  mapStateToStatus "unstarted" = open /\
  mapStateToStatus "started" = in_progress /\
  mapStateToStatus "completed" = completed /\
  mapStateToStatus "canceled" = cancelled /\
  (forall s : string,
      ~ In s ["backlog"; "unstarted"; "started"; "completed"; "canceled"] ->
      mapStateToStatus s = open) /\
  mapStatusToStateType open = "unstarted" /\
  mapStatusToStateType in_progress = "started" /\
  mapStatusToStateType blocked = "started" /\
  mapStatusToStateType completed = "completed" /\
  mapStatusToStateType cancelled = "canceled" /\
  (forall st : TrackerTaskStatus, mapStatusToStateType st <> "backlog").
Proof.
  repeat split; try reflexivity.
  - intros s Hs. apply mapStateToStatus_other; intros ->; apply Hs; simpl; tauto.
  - intros st. destruct st; discriminate.
Qed.

Lemma status_translation_table_witness :
  ~ In "triage" ["backlog"; "unstarted"; "started"; "completed"; "canceled"] /\
  mapStateToStatus "triage" = open.
Proof.
  assert (H : ~ In "triage" ["backlog"; "unstarted"; "started"; "completed"; "canceled"]).
  { simpl. intros [H | [H | [H | [H | [H | []]]]]]; discriminate H. }
  split; [exact H |].
  exact (proj1 (proj2 (proj2 (proj2 (proj2 (proj2 status_translation_table))))) "triage" H).
Defined.

Lemma mapPriority_bounds (p : Z) : 0 <= mapPriority p <= 4.
Proof. unfold mapPriority. destruct (p =? 0); lia. Qed.

(** C8. Remote priority 0 maps to 2; every other remote priority [p] maps
    to [min 4 (max 0 (p - 1))], so 1 maps to 0 and 5 is clamped to 4. *)
Theorem mapPriority_spec :
  mapPriority 0 = 2 /\
  (forall p : Z, p <> 0 -> mapPriority p = Z.min 4 (Z.max 0 (p - 1))) /\
  mapPriority 1 = 0 /\
  mapPriority 5 = 4.
Proof.
  repeat split; try reflexivity.
  intros p Hp. unfold mapPriority.
  destruct (Z.eqb_spec p 0); [contradiction | reflexivity].
Qed.

Lemma mapPriority_spec_witness :
  3 <> 0 /\ mapPriority 3 = Z.min 4 (Z.max 0 (3 - 1)).
Proof.
  split; [lia |].
  apply (proj1 (proj2 mapPriority_spec) 3). lia.
Defined.

End Translator.

(* ===================================================================== *)
(** ** Dependency readiness                                              *)
(* ===================================================================== *)

Section Readiness.

Implicit Types (task d : TrackerTask) (allTasks : list TrackerTask)
               (deps : list string) (depId : string).

Lemma isTerminal_true (s : TrackerTaskStatus) :
  isTerminal s = true <-> s = completed \/ s = cancelled.
Proof. destruct s; simpl; split; intros H; try discriminate; tauto || (destruct H; discriminate). Qed.

Lemma findById_None allTasks depId :
  findById allTasks depId = None <-> (forall t, In t allTasks -> t_id t <> depId).
Proof.
  split.
  - intros H t Ht Heq.
    unfold findById in H.
    pose proof (List.find_none _ _ H t Ht) as Hf. simpl in Hf.
    apply String.eqb_neq in Hf. contradiction.
  - intros H. unfold findById. induction allTasks as [| x r IH]; [reflexivity |].
    simpl. destruct (String.eqb_spec (t_id x) depId) as [E | _].
    + exfalso. apply (H x); [left; reflexivity | exact E].
    + apply IH. intros t Ht. apply H. right. exact Ht.
Qed.

Lemma findById_Some allTasks depId d :
  findById allTasks depId = Some d -> In d allTasks /\ t_id d = depId.
Proof.
  intros H. unfold findById in H. apply List.find_some in H. destruct H as [Hin Heq].
  split; [exact Hin | apply String.eqb_eq; exact Heq].
Qed.

(** With unique ids, the first task with an id is the task with that id. *)
Lemma findById_unique allTasks depId d :
  List.NoDup (map t_id allTasks) -> In d allTasks -> t_id d = depId ->
  findById allTasks depId = Some d.
Proof.
  unfold findById.
  induction allTasks as [| x r IH]; intros Hnd Hin Hid; [destruct Hin |].
  simpl in *. apply List.NoDup_cons_iff in Hnd. destruct Hnd as [Hx Hr].
  destruct (String.eqb_spec (t_id x) depId) as [E | NE].
  - destruct Hin as [-> | Hin]; [reflexivity |].
    exfalso. apply Hx. rewrite E, <- Hid. apply List.in_map. exact Hin.
  - destruct Hin as [-> | Hin]; [contradiction |]. apply IH; assumption.
Qed.

Lemma depResolved_true allTasks depId :
  depResolved allTasks depId = true <->
  (forall t, In t allTasks -> t_id t <> depId) \/
  (exists d, findById allTasks depId = Some d /\
             (t_status d = completed \/ t_status d = cancelled)).
Proof.
  unfold depResolved. destruct (findById allTasks depId) as [d |] eqn:E.
  - rewrite isTerminal_true. split.
    + intros H. right. exists d. split; [reflexivity | exact H].
    + intros [H | [d' [Hd' H]]].
      * apply findById_None in H. congruence.
      * injection Hd' as <-. exact H.
  - split; [| reflexivity]. intros _. left. apply findById_None. exact E.
Qed.

Lemma checkTaskReady_deps task allTasks deps :
  t_dependsOn task = Some deps ->
  checkTaskReady task allTasks = forallb (depResolved allTasks) deps.
Proof.
  intros H. unfold checkTaskReady. rewrite H. destruct deps; reflexivity.
Qed.

(** C5. A task whose [dependsOn] is absent or empty is ready.  Otherwise it
    is ready exactly when every dependency id either is the id of no task of
    the supplied set, or resolves (as the code resolves it, to the first task
    with that id) to a task that is completed or cancelled; a dependency that
    resolves to an in_progress or open task makes the task not ready. *)
Theorem checkTaskReady_spec task allTasks :
  (t_dependsOn task = None \/ t_dependsOn task = Some [] ->
   checkTaskReady task allTasks = true) /\
  (forall deps, t_dependsOn task = Some deps ->
     (checkTaskReady task allTasks = true <->
      forall depId, In depId deps ->
        (forall t, In t allTasks -> t_id t <> depId) \/
        (exists d, findById allTasks depId = Some d /\
                   (t_status d = completed \/ t_status d = cancelled)))) /\
  (forall deps depId d,
     t_dependsOn task = Some deps -> In depId deps ->
     findById allTasks depId = Some d ->
     t_status d = in_progress \/ t_status d = open ->
     checkTaskReady task allTasks = false).
Proof.
  split; [| split].
  - intros [H | H]; unfold checkTaskReady; rewrite H; reflexivity.
  - intros deps H. rewrite (checkTaskReady_deps _ _ _ H), List.forallb_forall.
    split; intros Hall depId Hin.
    + apply depResolved_true. apply Hall. exact Hin.
    + apply depResolved_true. apply Hall. exact Hin.
  - intros deps depId d H Hin Hfind Hst.
    rewrite (checkTaskReady_deps _ _ _ H).
    apply Bool.not_true_is_false. rewrite List.forallb_forall. intros Hall.
    specialize (Hall depId Hin). unfold depResolved in Hall.
    rewrite Hfind in Hall. destruct Hst as [E | E]; rewrite E in Hall; discriminate.
Qed.

(** With unique ids in the supplied set, "resolves to" is "is": the task is
    ready exactly when no task of the set carrying a dependency id is in a
    status other than completed or cancelled. *)
Lemma checkTaskReady_unique_ids task allTasks deps :
  List.NoDup (map t_id allTasks) ->
  t_dependsOn task = Some deps ->
  (checkTaskReady task allTasks = true <->
   forall depId d, In depId deps -> In d allTasks -> t_id d = depId ->
                   t_status d = completed \/ t_status d = cancelled).
Proof.
  intros Hnd H. rewrite (checkTaskReady_deps _ _ _ H), List.forallb_forall.
  split.
  - intros Hall depId d Hin Hd Hid. specialize (Hall depId Hin).
    unfold depResolved in Hall. rewrite (findById_unique _ _ _ Hnd Hd Hid) in Hall.
    apply isTerminal_true. exact Hall.
  - intros Hall depId Hin. unfold depResolved.
    destruct (findById allTasks depId) as [d |] eqn:E; [| reflexivity].
    apply findById_Some in E. destruct E as [Hd Hid].
    apply isTerminal_true. eapply Hall; eassumption.
Qed.

Lemma checkTaskReady_spec_witness :
  let dep1 := Scenario.mkTask "d1" completed 2 [] [] in
  let dep2 := Scenario.mkTask "d2" open 2 [] [] in
  let task := Scenario.mkTask "t" open 1 [] ["d1"; "d2"] in
  t_dependsOn task = Some ["d1"; "d2"] /\
  In "d2" ["d1"; "d2"] /\
  findById [dep1; dep2] "d2" = Some dep2 /\
  (t_status dep2 = in_progress \/ t_status dep2 = open) /\
  checkTaskReady task [dep1; dep2] = false.
Proof.
  intros dep1 dep2 task.
  assert (H1 : t_dependsOn task = Some ["d1"; "d2"]) by reflexivity.
  assert (H2 : In "d2" ["d1"; "d2"]) by (simpl; tauto).
  assert (H3 : findById [dep1; dep2] "d2" = Some dep2) by reflexivity.
  assert (H4 : t_status dep2 = in_progress \/ t_status dep2 = open)
    by (right; reflexivity).
  split; [exact H1 |]. split; [exact H2 |]. split; [exact H3 |]. split; [exact H4 |].
  exact (proj2 (proj2 (checkTaskReady_spec task [dep1; dep2]))
               ["d1"; "d2"] "d2" dep2 H1 H2 H3 H4).
Defined.

End Readiness.

(* ===================================================================== *)
(** ** The filter engine                                                 *)
(* ===================================================================== *)

Section FilterEngine.

Implicit Types (f : TaskFilter) (t : TrackerTask) (tasks : list TrackerTask).

Lemma includes_In {A} `{EqDecision A} (xs : list A) (x : A) :
  includes xs x = true <-> In x xs.
Proof.
  unfold includes. rewrite List.existsb_exists. split.
  - intros [y [Hy Heq]]. apply bool_decide_eq_true in Heq. subst. exact Hy.
  - intros Hx. exists x. split; [exact Hx | apply bool_decide_eq_true; reflexivity].
Qed.

Lemma truthy_str_Some (s : string) : truthy_str (Some s) = true <-> s <> "".
Proof.
  simpl. destruct (String.eqb_spec s ""); simpl; split; intros; congruence.
Qed.

Lemma filter_filter {A} (p q : A -> bool) (l : list A) :
  List.filter q (List.filter p l) = List.filter (fun x => p x && q x) l.
Proof.
  induction l as [| x r IH]; [reflexivity |].
  simpl. destruct (p x); simpl; [destruct (q x) |]; rewrite IH; reflexivity.
Qed.

Lemma statusPred_spec f t :
  statusPred f t = true <-> (forall v, f_status f = Some v -> In (t_status t) (asArray v)).
Proof.
  unfold statusPred. destruct (f_status f) as [v |].
  - rewrite includes_In. split; [intros H v' [= <-]; exact H | intros H; apply H; reflexivity].
  - split; [intros _ v [=] | reflexivity].
Qed.

Lemma priorityPred_spec f t :
  priorityPred f t = true <->
  (forall v, f_priority f = Some v -> In (t_priority t) (asArray v)).
Proof.
  unfold priorityPred. destruct (f_priority f) as [v |].
  - rewrite includes_In. split; [intros H v' [= <-]; exact H | intros H; apply H; reflexivity].
  - split; [intros _ v [=] | reflexivity].
Qed.

Lemma labelsPred_spec f t :
  labelsPred f t = true <->
  (forall ls l, f_labels f = Some ls -> In l ls ->
                exists tl, t_labels t = Some tl /\ In l tl).
Proof.
  unfold labelsPred. destruct (f_labels f) as [[| l0 ls0] |].
  - split; [intros _ ls l [= <-] [] | reflexivity].
  - rewrite List.forallb_forall. split.
    + intros H ls l [= <-] Hl. specialize (H l Hl).
      destruct (t_labels t) as [tl |]; [| discriminate].
      exists tl. split; [reflexivity | apply includes_In; exact H].
    + intros H l Hl. destruct (H _ l eq_refl Hl) as [tl [-> Hin]].
      apply includes_In. exact Hin.
  - split; [intros _ ls l [=] | reflexivity].
Qed.

Lemma parentPred_spec f t :
  parentPred f t = true <->
  (forall pid, f_parentId f = Some pid -> pid <> "" -> t_parentId t = Some pid).
Proof.
  unfold parentPred. destruct (f_parentId f) as [pid |]; [| split; [intros _ ? [=] | reflexivity]].
  destruct (truthy_str (Some pid)) eqn:E.
  - apply truthy_str_Some in E. rewrite bool_decide_eq_true.
    split; [intros H ? [= <-] _; exact H | intros H; apply H; [reflexivity | exact E]].
  - split; [| reflexivity]. intros _ ? [= <-] Hne.
    apply truthy_str_Some in Hne. congruence.
Qed.

Lemma assigneePred_spec f t :
  assigneePred f t = true <->
  (forall a, f_assignee f = Some a -> a <> "" -> t_assignee t = Some a).
Proof.
  unfold assigneePred. destruct (f_assignee f) as [a |]; [| split; [intros _ ? [=] | reflexivity]].
  destruct (truthy_str (Some a)) eqn:E.
  - apply truthy_str_Some in E. rewrite bool_decide_eq_true.
    split; [intros H ? [= <-] _; exact H | intros H; apply H; [reflexivity | exact E]].
  - split; [| reflexivity]. intros _ ? [= <-] Hne.
    apply truthy_str_Some in Hne. congruence.
Qed.

Lemma typeGiven_spec (v : OneOrMany string) :
  typeGiven (Some v) = true <-> v <> One "".
Proof.
  destruct v as [s | xs]; simpl.
  - destruct (String.eqb_spec s ""); simpl; split; intros; congruence.
  - split; [discriminate | reflexivity].
Qed.

Lemma typePred_spec f t :
  typePred f t = true <->
  (forall v, f_type f = Some v -> v <> One "" ->
             exists ty, t_type t = Some ty /\ ty <> "" /\ In ty (asArray v)).
Proof.
  unfold typePred. destruct (f_type f) as [v |]; [| split; [intros _ ? [=] | reflexivity]].
  destruct (typeGiven (Some v)) eqn:E.
  - apply typeGiven_spec in E. split.
    + intros H ? [= <-] _. destruct (t_type t) as [ty |]; [| discriminate].
      apply andb_true_iff in H. destruct H as [H1 H2].
      exists ty. split; [reflexivity |].
      split; [apply truthy_str_Some; exact H1 | apply includes_In; exact H2].
    + intros H. destruct (H v eq_refl E) as [ty [-> [Hne Hin]]].
      apply andb_true_iff. split; [apply truthy_str_Some; exact Hne | apply includes_In; exact Hin].
  - split; [| reflexivity]. intros _ ? [= <-] Hne.
    apply typeGiven_spec in Hne. congruence.
Qed.

Lemma excludePred_spec f t :
  excludePred f t = true <->
  (forall xs, f_excludeIds f = Some xs -> ~ In (t_id t) xs).
Proof.
  unfold excludePred. destruct (f_excludeIds f) as [[| x xs] |].
  - split; [intros _ ? [= <-] [] | reflexivity].
  - rewrite negb_true_iff, <- not_true_iff_false, includes_In.
    split; [intros H ? [= <-]; exact H | intros H; apply H; reflexivity].
  - split; [intros _ ? [=] | reflexivity].
Qed.

Lemma readyPred_spec f tasks t :
  readyPred f tasks t = true <->
  (f_ready f = Some true -> checkTaskReady t tasks = true).
Proof.
  unfold readyPred. destruct (f_ready f) as [[|] |].
  - split; [intros H _; exact H | intros H; apply H; reflexivity].
  - split; [intros _ [=] | reflexivity].
  - split; [intros _ [=] | reflexivity].
Qed.

Lemma matchesAll_spec f tasks t :
  matchesAll f tasks t = true <-> spec_matches f tasks t.
Proof.
  unfold matchesAll, spec_matches.
  rewrite !andb_true_iff.
  rewrite statusPred_spec, labelsPred_spec, priorityPred_spec, parentPred_spec,
    assigneePred_spec, typePred_spec, excludePred_spec, readyPred_spec.
  tauto.
Qed.

Lemma filterTasks_fused tasks f :
  filterTasks tasks (Some f) =
  applyLimit f (applyOffset f (List.filter (matchesAll f tasks) tasks)).
Proof.
  unfold filterTasks. rewrite !filter_filter. do 2 f_equal.
  apply List.filter_ext. intros t. unfold matchesAll.
  rewrite !andb_assoc. reflexivity.
Qed.

Lemma applyOffset_spec {A} f (l : list A) :
  applyOffset f l =
  match f_offset f with
  | Some n => if 0 <? n then drop (Z.to_nat n) l else l
  | None => l
  end.
Proof.
  unfold applyOffset, slice_from. destruct (f_offset f) as [n |]; [| reflexivity].
  simpl. destruct (Z.eqb_spec n 0) as [-> | _]; reflexivity.
Qed.

Lemma applyLimit_spec {A} f (l : list A) :
  applyLimit f l =
  match f_limit f with
  | Some n => if 0 <? n then take (Z.to_nat n) l else l
  | None => l
  end.
Proof.
  unfold applyLimit, slice_to. destruct (f_limit f) as [n |]; [| reflexivity].
  simpl. destruct (Z.eqb_spec n 0) as [-> | _]; reflexivity.
Qed.

(** C7. With no filter the collection is returned as it is.  With a filter,
    the result is the input restricted, in input order, to the tasks that
    meet every given criterion at once (AND across criteria): status,
    priority and type are met by equalling any listed value (OR), the labels
    criterion by carrying every listed label (AND), exclusion by not being
    listed, readiness by [checkTaskReady] against the whole input; the type
    criterion counts a task only if it has a non-empty type, as the source's
    [t.type &&] guard has it.  That restricted list is then cut by the
    offset and, after that, by the limit, each when positive. *)
Theorem filterTasks_spec tasks f :
  filterTasks tasks None = tasks /\
  exists keep : TrackerTask -> bool,
    (forall t, keep t = true <-> spec_matches f tasks t) /\
    filterTasks tasks (Some f) =
      let kept := List.filter keep tasks in
      let fromOffset :=
        match f_offset f with
        | Some n => if 0 <? n then drop (Z.to_nat n) kept else kept
        | None => kept
        end in
      match f_limit f with
      | Some n => if 0 <? n then take (Z.to_nat n) fromOffset else fromOffset
      | None => fromOffset
      end.
Proof.
  split; [reflexivity |].
  exists (matchesAll f tasks). split; [apply matchesAll_spec |].
  rewrite filterTasks_fused, applyLimit_spec, applyOffset_spec. reflexivity.
Qed.

Lemma filterTasks_spec_witness :
  let a := Scenario.mkTask "a" open 2 ["urgent"] [] in
  let b := Scenario.mkTask "b" in_progress 1 ["backend"; "urgent"] [] in
  let c := Scenario.mkTask "c" completed 0 ["urgent"] [] in
  let d := Scenario.mkTask "d" open 3 ["backend"] [] in
  let e := Scenario.mkTask "e" blocked 1 ["urgent"] [] in
  let flt := {| f_status := Some (Many [open; in_progress]);
                f_labels := Some ["urgent"]; f_priority := None;
                f_parentId := None; f_assignee := None; f_type := None;
                f_ready := None; f_limit := None; f_offset := None;
                f_excludeIds := None |} in
  filterTasks [a; b; c; d; e] (Some flt) = [a; b] /\
  exists keep : TrackerTask -> bool,
    (forall t, keep t = true <-> spec_matches flt [a; b; c; d; e] t) /\
    [a; b] = List.filter keep [a; b; c; d; e].
Proof.
  intros a b c d e flt.
  split; [reflexivity |].
  destruct (proj2 (filterTasks_spec [a; b; c; d; e] flt)) as [keep [Hkeep Heq]].
  exists keep. split; [exact Hkeep |].
  transitivity (filterTasks [a; b; c; d; e] (Some flt)); [reflexivity | exact Heq].
Defined.

End FilterEngine.

(* ===================================================================== *)
(** ** Choosing the next task                                            *)
(* ===================================================================== *)

Section NextTask.

Implicit Types (t u : TrackerTask) (l tasks : list TrackerTask).









Lemma pickNext_nil : pickNext [] = None.
Proof. reflexivity. Qed.



End NextTask.

(* ===================================================================== *)
(** ** Running method bodies                                             *)
(* ===================================================================== *)

Section Running.

Context {W : Type}.
Variable env : Env W.

Implicit Types (p : Plugin) (w : W).

Lemma bind_ok {A B} (m : M W A) (k : A -> M W B) p w a p' w' :
  m p w = (Ok a, p', w') -> bind m k p w = k a p' w'.
Proof. intros H. unfold bind. rewrite H. reflexivity. Qed.

Lemma bind_throw {A B} (m : M W A) (k : A -> M W B) p w e p' w' :
  m p w = (Throw e, p', w') -> bind m k p w = (Throw e, p', w').
Proof. intros H. unfold bind. rewrite H. reflexivity. Qed.

Lemma try_catch_ok {A} (m : M W A) (h : Err -> M W A) p w a p' w' :
  m p w = (Ok a, p', w') -> try_catch m h p w = (Ok a, p', w').
Proof. intros H. unfold try_catch. rewrite H. reflexivity. Qed.

Lemma try_catch_throw {A} (m : M W A) (h : Err -> M W A) p w e p' w' :
  m p w = (Throw e, p', w') -> try_catch m h p w = h e p' w'.
Proof. intros H. unfold try_catch. rewrite H. reflexivity. Qed.

Lemma truthy_str_false (s : string) : truthy_str (Some s) = false <-> s = "".
Proof.
  simpl. destruct (String.eqb_spec s ""); simpl; split; intros; congruence.
Qed.

Lemma getTasks_fetched filter p w c issues w' :
  client p = Some c -> projectId p <> "" ->
  q_issuesByLabel env c (projectId p) (labelName p) w = (Ok issues, w') ->
  getTasks env filter p w =
    (Ok (filterTasks (map issueToTask issues) filter),
     with_taskCache (cacheAll (map issueToTask issues) (taskCache p)) p, w').
Proof.
  intros Hc Hp Hq. apply truthy_str_Some in Hp.
  unfold getTasks, bind, this. rewrite Hc, Hp. simpl.
  unfold try_catch, bind, getIssuesByLabel, request. rewrite Hq. reflexivity.
Qed.

Lemma getTasks_failed filter p w c e w' :
  client p = Some c -> projectId p <> "" ->
  q_issuesByLabel env c (projectId p) (labelName p) w = (Throw e, w') ->
  getTasks env filter p w = (Ok [], p, w').
Proof.
  intros Hc Hp Hq. apply truthy_str_Some in Hp.
  unfold getTasks, bind, this. rewrite Hc, Hp. simpl.
  unfold try_catch, bind, getIssuesByLabel, request. rewrite Hq. reflexivity.
Qed.

Lemma getTasks_not_ready filter p w :
  client p = None \/ projectId p = "" ->
  getTasks env filter p w = (Ok [], p, w).
Proof.
  intros H. unfold getTasks, bind, this.
  destruct (client p); [| reflexivity].
  destruct H as [H | H]; [discriminate |].
  apply truthy_str_false in H. rewrite H. reflexivity.
Qed.

End Running.

Section NextTaskMethod.

Context {W : Type}.
Variable env : Env W.

Implicit Types (t u : TrackerTask) (tasks : list TrackerTask).






(** When the plugin is not connected or the fetch fails there is no task. *)
Lemma getNextTask_unavailable filter p w :
  (client p = None \/ projectId p = "" \/
   exists c e w', client p = Some c /\
     q_issuesByLabel env c (projectId p) (labelName p) w = (Throw e, w')) ->
  exists p' w', getNextTask env filter p w = (Ok None, p', w').
Proof.
  intros H. unfold getNextTask.
  destruct (String.eqb_spec (projectId p) "") as [Hp | Hp].
  { exists p, w. rewrite (bind_ok _ _ _ _ _ _ _ (getTasks_not_ready env _ p w (or_intror Hp))).
    reflexivity. }
  destruct H as [H | [H | [c [e [w' [Hc Hq]]]]]]; [| contradiction |].
  - exists p, w. rewrite (bind_ok _ _ _ _ _ _ _ (getTasks_not_ready env _ p w (or_introl H))).
    reflexivity.
  - exists p, w'.
    rewrite (bind_ok _ _ _ _ _ _ _ (getTasks_failed env _ p w c e w' Hc Hp Hq)).
    reflexivity.
Qed.

End NextTaskMethod.


(* ===================================================================== *)
(** ** Conflict detection and resolution                                 *)
(* ===================================================================== *)

Section Conflicts.

Context {W : Type}.
Variable env : Env W.

Implicit Types (p : Plugin) (w : W) (base remoteTask : TrackerTask).

Lemma changedFieldsOf_nonempty base remoteTask :
  (0 <? length (changedFieldsOf base remoteTask))%nat = true <->
  watchedDiffer base remoteTask.
Proof.
  unfold changedFieldsOf, watchedDiffer.
  destruct (decide (t_status base = t_status remoteTask)) as [E1 | E1];
  destruct (decide (t_title base = t_title remoteTask)) as [E2 | E2];
  destruct (decide (t_description base = t_description remoteTask)) as [E3 | E3];
  destruct (decide (t_assignee base = t_assignee remoteTask)) as [E4 | E4];
  repeat match goal with
         | |- context [bool_decide (?a <> ?b)] =>
             first [ rewrite (bool_decide_eq_true_2 (a <> b)) by assumption
                   | rewrite (bool_decide_eq_false_2 (a <> b)) by (intros N; apply N; assumption) ]
         end; simpl; split; intros H; try reflexivity; try discriminate; tauto.
Qed.

Lemma changedFieldsOf_In base remoteTask (name : string) :
  In name (changedFieldsOf base remoteTask) <->
  (name = "status" /\ t_status base <> t_status remoteTask) \/
  (name = "title" /\ t_title base <> t_title remoteTask) \/
  (name = "description" /\ t_description base <> t_description remoteTask) \/
  (name = "assignee" /\ t_assignee base <> t_assignee remoteTask).
Proof.
  unfold changedFieldsOf. rewrite !List.in_app_iff.
  repeat match goal with
         | |- context [bool_decide ?P] => destruct (bool_decide_reflect P)
         end; simpl; intuition congruence.
Qed.

Lemma detectConflict_no_client taskId p w :
  client p = None -> detectConflict env taskId p w = (Ok None, p, w).
Proof. intros H. unfold detectConflict, bind, this. rewrite H. reflexivity. Qed.

Lemma detectConflict_no_baseline taskId p w :
  lastSyncedTasks p !! taskId = None ->
  detectConflict env taskId p w = (Ok None, p, w).
Proof.
  intros H. unfold detectConflict, bind, this.
  destruct (client p); [rewrite H |]; reflexivity.
Qed.

Lemma detectConflict_fetched taskId p w c lastSynced remoteIssue w' :
  client p = Some c ->
  lastSyncedTasks p !! taskId = Some lastSynced ->
  q_issue env c taskId w = (Ok remoteIssue, w') ->
  detectConflict env taskId p w =
    (Ok (if bool_decide (i_updatedAt remoteIssue <> se_updatedAt lastSynced)
         then if (0 <? length (changedFieldsOf (se_task lastSynced)
                                               (issueToTask remoteIssue)))%nat
              then Some (conflictRecord taskId lastSynced remoteIssue)
              else None
         else None), p, w').
Proof.
  intros Hc Hb Hq. unfold detectConflict, bind, this. rewrite Hc, Hb.
  unfold try_catch, bind, getIssue, request. rewrite Hq.
  destruct (bool_decide _); [destruct (0 <? _)%nat |]; reflexivity.
Qed.

Lemma detectConflict_fetch_failed taskId p w c lastSynced e w' :
  client p = Some c ->
  lastSyncedTasks p !! taskId = Some lastSynced ->
  q_issue env c taskId w = (Throw e, w') ->
  detectConflict env taskId p w = (Ok None, p, w').
Proof.
  intros Hc Hb Hq. unfold detectConflict, bind, this. rewrite Hc, Hb.
  unfold try_catch, bind, getIssue, request. rewrite Hq. reflexivity.
Qed.

(** [detectConflict] never throws and never writes to the plugin. *)
Lemma detectConflict_total taskId p w :
  exists r w', detectConflict env taskId p w = (Ok r, p, w').
Proof.
  destruct (client p) as [c |] eqn:Hc;
    [| eexists _, _; apply detectConflict_no_client; exact Hc].
  destruct (lastSyncedTasks p !! taskId) as [ls |] eqn:Hb;
    [| eexists _, _; apply detectConflict_no_baseline; exact Hb].
  destruct (q_issue env c taskId w) as [[issue | e] w'] eqn:Hq.
  - eexists _, _. eapply detectConflict_fetched; eassumption.
  - eexists _, _. eapply detectConflict_fetch_failed; eassumption.
Qed.

(** A reported conflict comes from a connected plugin with a baseline and a
    successful fetch. *)
Lemma detectConflict_Some_inv taskId p w conflict p' w' :
  detectConflict env taskId p w = (Ok (Some conflict), p', w') ->
  p' = p /\
  exists c lastSynced remoteIssue,
    client p = Some c /\
    lastSyncedTasks p !! taskId = Some lastSynced /\
    q_issue env c taskId w = (Ok remoteIssue, w') /\
    conflict = conflictRecord taskId lastSynced remoteIssue /\
    i_updatedAt remoteIssue <> se_updatedAt lastSynced /\
    watchedDiffer (se_task lastSynced) (issueToTask remoteIssue).
Proof.
  intros H.
  destruct (client p) as [c |] eqn:Hc;
    [| rewrite (detectConflict_no_client _ _ _ Hc) in H; discriminate].
  destruct (lastSyncedTasks p !! taskId) as [ls |] eqn:Hb;
    [| rewrite (detectConflict_no_baseline _ _ _ Hb) in H; discriminate].
  destruct (q_issue env c taskId w) as [[issue | e] w1] eqn:Hq;
    [| rewrite (detectConflict_fetch_failed _ _ _ _ _ _ _ Hc Hb Hq) in H; discriminate].
  rewrite (detectConflict_fetched _ _ _ _ _ _ _ Hc Hb Hq) in H.
  destruct (bool_decide_reflect (i_updatedAt issue <> se_updatedAt ls)) as [Hts | Hts];
    [| discriminate].
  destruct (0 <? _)%nat eqn:Hch; [| discriminate].
  injection H as <- <- <-. split; [reflexivity |].
  exists c, ls, issue. repeat (split; [reflexivity || assumption |]).
  apply changedFieldsOf_nonempty. exact Hch.
Qed.

(** C3. On a connected plugin: with no baseline for the id, [detectConflict]
    returns no conflict without fetching.  With a baseline and a successful
    fresh fetch, it returns a conflict record if and only if the remote
    [updatedAt] differs from the baseline's and at least one of status,
    title, description, assignee differs between the baseline task and the
    normalized remote task; the record then carries both versions, both
    timestamps and the names of the differing fields.  A timestamp
    difference alone gives no conflict. *)
Theorem detectConflict_spec taskId p w c :
  client p = Some c ->
  (lastSyncedTasks p !! taskId = None ->
   detectConflict env taskId p w = (Ok None, p, w)) /\
  (forall lastSynced remoteIssue w',
     lastSyncedTasks p !! taskId = Some lastSynced ->
     q_issue env c taskId w = (Ok remoteIssue, w') ->
     let base := se_task lastSynced in
     let remoteTask := issueToTask remoteIssue in
     exists r,
       detectConflict env taskId p w = (Ok r, p, w') /\
       (is_Some r <->
        i_updatedAt remoteIssue <> se_updatedAt lastSynced /\
        watchedDiffer base remoteTask) /\
       (forall conflict, r = Some conflict ->
          conflict = conflictRecord taskId lastSynced remoteIssue /\
          (forall name, In name (cf_changedFields conflict) <->
             (name = "status" /\ t_status base <> t_status remoteTask) \/
             (name = "title" /\ t_title base <> t_title remoteTask) \/
             (name = "description" /\ t_description base <> t_description remoteTask) \/
             (name = "assignee" /\ t_assignee base <> t_assignee remoteTask))) /\
       (~ watchedDiffer base remoteTask -> r = None)).
Proof.
  intros Hc. split; [apply detectConflict_no_baseline |].
  intros ls issue w' Hb Hq base remoteTask.
  eexists. split; [eapply detectConflict_fetched; eassumption |].
  fold base remoteTask.
  destruct (bool_decide_reflect (i_updatedAt issue <> se_updatedAt ls)) as [Hts | Hts].
  - destruct (0 <? length (changedFieldsOf base remoteTask))%nat eqn:Hch.
    + apply changedFieldsOf_nonempty in Hch.
      split; [split; [intros _; split; assumption | intros _; eexists; reflexivity] |].
      split; [| intros N; contradiction].
      intros conflict [= <-]. split; [reflexivity |].
      intros name. apply changedFieldsOf_In.
    + assert (Hno : ~ watchedDiffer base remoteTask).
      { intros Hd. apply changedFieldsOf_nonempty in Hd. congruence. }
      split; [split; [intros [? [=]] | intros [_ Hd]; contradiction] |].
      split; [intros ? [=] | reflexivity].
  - split; [split; [intros [? [=]] | intros [Hd _]; contradiction] |].
    split; [intros ? [=] | reflexivity].
Qed.

End Conflicts.

Lemma detectConflict_spec_witness :
  let w := Scenario.world [Scenario.issue1_moved]
                          [Scenario.todo; Scenario.doing; Scenario.finished]
                          false false in
  let w' := Scenario.logged (Scenario.CIssue "id-1") w in
  exists conflict,
    detectConflict Scenario.service "id-1" Scenario.plugin1 w
      = (Ok (Some conflict), Scenario.plugin1, w') /\
    cf_changedFields conflict = ["status"] /\
    cf_localVersion conflict = issueToTask Scenario.issue1 /\
    cf_remoteVersion conflict = issueToTask Scenario.issue1_moved.
Proof.
  intros w w'.
  destruct (proj2 (detectConflict_spec Scenario.service "id-1" Scenario.plugin1 w
                     {| apiKey := "lin_api_key" |} eq_refl)
              {| se_task := issueToTask Scenario.issue1;
                 se_updatedAt := i_updatedAt Scenario.issue1 |}
              Scenario.issue1_moved w' eq_refl eq_refl)
    as [r [Hrun [Hiff [Hrec _]]]].
  destruct (proj2 Hiff) as [conflict ->].
  { split; [discriminate | left; discriminate]. }
  exists conflict. split; [exact Hrun |].
  destruct (Hrec conflict eq_refl) as [-> _].
  repeat split.
Defined.

Section Resolution.

Context {W : Type}.
Variable env : Env W.

Implicit Types (p : Plugin) (w : W).

Lemma resolveConflict_conflict taskId resolution p w c conflict w' :
  client p = Some c ->
  detectConflict env taskId p w = (Ok (Some conflict), p, w') ->
  resolveConflict env taskId resolution p w =
    match resolution with
    | remote => (Ok (Some (cf_remoteVersion conflict)), acceptRemote taskId conflict p, w')
    | merge => (Ok (Some (cf_remoteVersion conflict)), p, w')
    | local =>
        bind (findStateByType env (mapStatusToStateType (t_status (cf_localVersion conflict))))
             (fun stateId =>
                if truthy_str stateId then
                  bind (updateIssue env c taskId
                          {| in_stateId := stateId; in_assigneeId := None;
                             in_labelIds := None;
                             in_description := t_description (cf_localVersion conflict) |})
                       (fun updated =>
                          bind (cacheSet taskId (issueToTask updated))
                               (fun _ =>
                                  bind (baselineSet taskId (issueToTask updated)
                                                    (i_updatedAt updated))
                                       (fun _ => ret (Some (issueToTask updated)))))
                else ret (Some (cf_remoteVersion conflict)))
             p w'
    end.
Proof.
  intros Hc Hd. unfold resolveConflict. unfold bind at 1. unfold this.
  rewrite Hc. unfold bind at 1. rewrite Hd.
  destruct resolution; reflexivity.
Qed.

(** C1, as the code has it.  When [detectConflict] finds a conflict, 'merge'
    and 'remote' return the same task, the remote version; 'remote' also
    stores it in the cache and in the baseline, with the remote's own
    [updatedAt], whereas 'merge' writes nothing. *)
Theorem resolveConflict_merge_returns_remote taskId p w conflict p' w' :
  detectConflict env taskId p w = (Ok (Some conflict), p', w') ->
  resolveConflict env taskId merge p w
    = (Ok (Some (cf_remoteVersion conflict)), p, w') /\
  (exists pr,
     resolveConflict env taskId remote p w
       = (Ok (Some (cf_remoteVersion conflict)), pr, w') /\
     taskCache pr = <[taskId := cf_remoteVersion conflict]> (taskCache p) /\
     lastSyncedTasks pr =
       <[taskId := {| se_task := cf_remoteVersion conflict;
                      se_updatedAt := cf_remoteUpdatedAt conflict |}]>
         (lastSyncedTasks p)).
Proof.
  intros Hd.
  destruct (detectConflict_Some_inv env _ _ _ _ _ _ Hd) as [-> [c [_ [_ [Hc _]]]]].
  split.
  - exact (resolveConflict_conflict taskId merge p w c conflict w' Hc Hd).
  - exists (acceptRemote taskId conflict p). split; [| split; reflexivity].
    exact (resolveConflict_conflict taskId remote p w c conflict w' Hc Hd).
Qed.

End Resolution.

(** In the scenario the service has moved [issue1] to In Progress since the
    plugin synced it. *)
Lemma scenario_conflict_detected :
  let w := Scenario.world [Scenario.issue1_moved]
                          [Scenario.todo; Scenario.doing; Scenario.finished]
                          false false in
  detectConflict Scenario.service "id-1" Scenario.plugin1 w
    = (Ok (Some (conflictRecord "id-1"
                   {| se_task := issueToTask Scenario.issue1;
                      se_updatedAt := i_updatedAt Scenario.issue1 |}
                   Scenario.issue1_moved)),
       Scenario.plugin1, Scenario.logged (Scenario.CIssue "id-1") w).
Proof.
  intros w.
  exact (detectConflict_fetched Scenario.service "id-1" Scenario.plugin1 w
           {| apiKey := "lin_api_key" |} _ Scenario.issue1_moved _
           eq_refl eq_refl eq_refl).
Qed.

Lemma resolveConflict_merge_returns_remote_witness :
  let w := Scenario.world [Scenario.issue1_moved]
                          [Scenario.todo; Scenario.doing; Scenario.finished]
                          false false in
  let w' := Scenario.logged (Scenario.CIssue "id-1") w in
  resolveConflict Scenario.service "id-1" merge Scenario.plugin1 w
    = (Ok (Some (issueToTask Scenario.issue1_moved)), Scenario.plugin1, w').
Proof.
  intros w w'.
  exact (proj1 (resolveConflict_merge_returns_remote Scenario.service "id-1"
                  Scenario.plugin1 w _ Scenario.plugin1 w'
                  scenario_conflict_detected)).
Defined.

(** C1 fails as stated: with a conflict detected for "id-1", 'remote' moves
    the baseline and the cache entry to the remote version while 'merge'
    leaves both on the version synced before. *)
Lemma resolveConflict_merge_not_remote :
  let w := Scenario.world [Scenario.issue1_moved]
                          [Scenario.todo; Scenario.doing; Scenario.finished]
                          false false in
  let afterMerge := snd (fst (resolveConflict Scenario.service "id-1" merge Scenario.plugin1 w)) in
  let afterRemote := snd (fst (resolveConflict Scenario.service "id-1" remote Scenario.plugin1 w)) in
  (exists conflict p' w',
     detectConflict Scenario.service "id-1" Scenario.plugin1 w
       = (Ok (Some conflict), p', w')) /\
  resolveConflict Scenario.service "id-1" merge Scenario.plugin1 w
    <> resolveConflict Scenario.service "id-1" remote Scenario.plugin1 w /\
  taskCache afterMerge !! "id-1" = Some (issueToTask Scenario.issue1) /\
  lastSyncedTasks afterMerge !! "id-1"
    = Some {| se_task := issueToTask Scenario.issue1;
              se_updatedAt := "2025-01-02T00:00:00.000Z" |} /\
  taskCache afterRemote !! "id-1" = Some (issueToTask Scenario.issue1_moved) /\
  lastSyncedTasks afterRemote !! "id-1"
    = Some {| se_task := issueToTask Scenario.issue1_moved;
              se_updatedAt := "2025-01-03T00:00:00.000Z" |}.
Proof.
  intros w afterMerge afterRemote.
  split; [eexists _, _, _; exact scenario_conflict_detected |].
  split; [| repeat split; vm_compute; reflexivity].
  intros Heq.
  apply (f_equal (fun x => se_updatedAt <$> lastSyncedTasks (snd (fst x)) !! "id-1")) in Heq.
  vm_compute in Heq. discriminate Heq.
Qed.

(* ===================================================================== *)
(** ** The error boundary of the public methods                          *)
(* ===================================================================== *)

Section ErrorBoundary.

Context {W : Type}.
Variable env : Env W.

Lemma never_throws_ret {A} (a : A) : never_throws (ret a : M W A).
Proof. intros p w. eexists _, _, _. reflexivity. Qed.

Lemma never_throws_this : never_throws (this : M W Plugin).
Proof. intros p w. eexists _, _, _. reflexivity. Qed.

Lemma never_throws_update f : never_throws (update f : M W unit).
Proof. intros p w. eexists _, _, _. reflexivity. Qed.

Lemma never_throws_clock : never_throws (clock env).
Proof.
  intros p w. unfold clock. destruct (now env w) as [s w'].
  eexists _, _, _. reflexivity.
Qed.

Lemma never_throws_bind {A B} (m : M W A) (k : A -> M W B) :
  never_throws m -> (forall a, never_throws (k a)) -> never_throws (bind m k).
Proof.
  intros Hm Hk p w. destruct (Hm p w) as [a [p1 [w1 E]]].
  rewrite (bind_ok _ _ _ _ _ _ _ E). apply Hk.
Qed.

(** A [try] whose handler returns is a boundary, whatever the body does. *)
Lemma never_throws_try_catch {A} (m : M W A) (h : Err -> M W A) :
  (forall e, never_throws (h e)) -> never_throws (try_catch m h).
Proof.
  intros Hh p w. unfold try_catch.
  destruct (m p w) as [[[a | e] p1] w1]; [eexists _, _, _; reflexivity | apply Hh].
Qed.

Create HintDb boundary.
#[local] Hint Resolve never_throws_ret never_throws_this never_throws_update
  never_throws_clock : boundary.

Ltac boundary :=
  repeat first
    [ apply never_throws_try_catch; intros ?
    | apply never_throws_bind; [| intros ?]
    | solve [auto with boundary]
    | match goal with
      | |- never_throws (match ?x with _ => _ end) => destruct x
      | |- never_throws (if ?x then _ else _) => destruct x
      end ].

Lemma getTasks_never_throws filter : never_throws (getTasks env filter).
Proof. unfold getTasks. boundary. Qed.

Lemma getTask_never_throws id : never_throws (getTask env id).
Proof. unfold getTask. boundary. Qed.

Lemma getNextTask_never_throws filter : never_throws (getNextTask env filter).
Proof. unfold getNextTask. pose proof getTasks_never_throws. boundary. Qed.

Lemma completeTask_never_throws id reason : never_throws (completeTask env id reason).
Proof. unfold completeTask. boundary. Qed.

Lemma updateTaskStatus_never_throws id status :
  never_throws (updateTaskStatus env id status).
Proof. unfold updateTaskStatus. boundary. Qed.

Lemma claimTask_never_throws id : never_throws (claimTask env id).
Proof. unfold claimTask. boundary. Qed.

Lemma isComplete_never_throws filter : never_throws (isComplete env filter).
Proof. unfold isComplete. pose proof getTasks_never_throws. boundary. Qed.

Lemma sync_never_throws : never_throws (sync env).
Proof. unfold sync. boundary. Qed.

Lemma isTaskReady_never_throws id : never_throws (isTaskReady env id).
Proof.
  unfold isTaskReady.
  pose proof getTasks_never_throws. pose proof getTask_never_throws. boundary.
Qed.

Lemma detectConflict_never_throws taskId : never_throws (detectConflict env taskId).
Proof. unfold detectConflict. boundary. Qed.

Lemma getEpics_never_throws : never_throws (getEpics env).
Proof. unfold getEpics. boundary. Qed.

(** [resolveConflict] returns when the resolution is 'remote' or 'merge'. *)
Lemma resolveConflict_never_throws_unless_local taskId resolution :
  resolution <> local -> never_throws (resolveConflict env taskId resolution).
Proof.
  intros Hr. unfold resolveConflict.
  pose proof detectConflict_never_throws. pose proof getTask_never_throws.
  apply never_throws_bind; [auto with boundary | intros p0].
  destruct (client p0); [| auto with boundary].
  apply never_throws_bind; [auto | intros [conflict |]]; [| auto].
  destruct resolution; [contradiction | |]; unfold cacheSet, baselineSet; boundary.
Qed.

End ErrorBoundary.

(** C2 fails on [resolveConflict] with the 'local' resolution: after a
    conflict is detected, [findStateByType] and [updateIssue] run outside any
    [try], so a mutation the service rejects, or a failing team query,
    throws out of the method.  (Every other public method, and
    [resolveConflict] with the other two resolutions, returns on every
    input: the [_never_throws] lemmas above.) *)
Theorem resolveConflict_local_throws :
  let states := [Scenario.todo; Scenario.doing; Scenario.finished] in
  let rejecting := Scenario.world [Scenario.issue1_moved] states true false in
  let teamDown := Scenario.world [Scenario.issue1_moved] states false true in
  fst (fst (resolveConflict Scenario.service "id-1" local Scenario.plugin1 rejecting))
    = Throw "Failed to update issue" /\
  fst (fst (resolveConflict Scenario.service "id-1" local Scenario.plugin1 teamDown))
    = Throw "Linear API error: 503 Service Unavailable".
Proof. split; vm_compute; reflexivity. Qed.

(* ===================================================================== *)
(** ** Workflow states, completing and claiming                          *)
(* ===================================================================== *)

Section Workflow.

Context {W : Type}.
Variable env : Env W.

Implicit Types (p : Plugin) (w : W) (states : list LinearState).

Lemma stateOfType_lacking states ty :
  (forall s, In s states -> s_type s <> ty) -> stateOfType states ty = None.
Proof.
  intros H. unfold stateOfType.
  destruct (List.find _ states) as [s |] eqn:E; [| reflexivity].
  apply List.find_some in E. destruct E as [Hin Heq].
  apply String.eqb_eq in Heq. exfalso. exact (H s Hin Heq).
Qed.

(** [getTeamStates] touches nothing but the workflow-state memo. *)
Lemma getTeamStates_frame p w r p1 w1 :
  getTeamStates env p w = (r, p1, w1) ->
  client p1 = client p /\ userId p1 = userId p /\
  taskCache p1 = taskCache p /\ lastSyncedTasks p1 = lastSyncedTasks p.
Proof.
  cbv [getTeamStates bind this getStates getTeam request update ret].
  destruct (client p) as [c |] eqn:Hc; [| intros [= <- <- <-]; tauto].
  destruct (negb _); [intros [= <- <- <-]; tauto |].
  destruct (stateCache p !! teamId p); [intros [= <- <- <-]; tauto |].
  destruct (q_team env c (teamId p) w) as [[team | e] w2];
    simpl; intros H; inversion H; subst; simpl; tauto.
Qed.

Lemma findStateByType_found ty p w states p1 w1 :
  getTeamStates env p w = (Ok states, p1, w1) ->
  findStateByType env ty p w = (Ok (s_id <$> stateOfType states ty), p1, w1).
Proof. intros H. unfold findStateByType. rewrite (bind_ok _ _ _ _ _ _ _ H). reflexivity. Qed.

Lemma findStateByType_failed ty p w e p1 w1 :
  getTeamStates env p w = (Throw e, p1, w1) ->
  findStateByType env ty p w = (Throw e, p1, w1).
Proof. intros H. unfold findStateByType. apply bind_throw. exact H. Qed.

Lemma updateIssue_run c id input p w :
  updateIssue env c id input p w =
    match q_issueUpdate env c id input w with
    | (Ok (true, issue), w') => (Ok issue, p, w')
    | (Ok (false, _), w') => (Throw "Failed to update issue", p, w')
    | (Throw e, w') => (Throw e, p, w')
    end.
Proof.
  unfold updateIssue, bind, request.
  destruct (q_issueUpdate env c id input w) as [[[[|] issue] | e] w']; reflexivity.
Qed.

Lemma addComment_run c id body p w :
  addComment env c id body p w =
    match q_commentCreate env c id body w with
    | (Ok _, w') => (Ok tt, p, w')
    | (Throw e, w') => (Throw e, p, w')
    end.
Proof.
  unfold addComment, bind, request.
  destruct (q_commentCreate env c id body w) as [[b | e] w']; reflexivity.
Qed.

(** What [completeTask] does on a connected plugin, path by path. *)
Lemma completeTask_run id reason p w c :
  client p = Some c ->
  completeTask env id reason p w =
    match getTeamStates env p w with
    | (Throw e, p1, w1) => (Ok (completionFailed id e), p1, w1)
    | (Ok states, p1, w1) =>
        let stateId := s_id <$> stateOfType states "completed" in
        if negb (truthy_str stateId) then (Ok noCompletedState, p1, w1)
        else
          match q_issueUpdate env c id (stateInput stateId) w1 with
          | (Throw e, w2) => (Ok (completionFailed id e), p1, w2)
          | (Ok (false, _), w2) =>
              (Ok (completionFailed id "Failed to update issue"), p1, w2)
          | (Ok (true, updatedIssue), w2) =>
              let stored :=
                with_taskCache (<[id := issueToTask updatedIssue]> (taskCache p1)) p1 in
              if truthy_str reason then
                match q_commentCreate env c id
                        ("Task completed by ralph-tui: " +:+ default "" reason) w2 with
                | (Throw e, w3) => (Ok (completionFailed id e), p1, w3)
                | (Ok _, w3) => (Ok (completionDone updatedIssue), stored, w3)
                end
              else (Ok (completionDone updatedIssue), stored, w2)
          end
    end.
Proof.
  intros Hc. unfold completeTask. unfold bind at 1. unfold this. rewrite Hc.
  unfold try_catch. unfold bind at 1.
  destruct (getTeamStates env p w) as [[[states | e] p1] w1] eqn:Hts.
  - rewrite (findStateByType_found _ _ _ _ _ _ Hts). cbv zeta.
    destruct (negb (truthy_str (s_id <$> stateOfType states "completed"))); [reflexivity |].
    unfold bind at 1. rewrite updateIssue_run. fold (stateInput (s_id <$> stateOfType states "completed")).
    destruct (q_issueUpdate env c id _ w1) as [[[[|] issue] | e] w2]; try reflexivity.
    unfold bind at 1. destruct (truthy_str reason).
    + rewrite addComment_run.
      destruct (q_commentCreate env c id _ w2) as [[b | e] w3]; reflexivity.
    + reflexivity.
  - rewrite (findStateByType_failed _ _ _ _ _ _ Hts). reflexivity.
Qed.


Lemma updateTaskStatus_run id status p w c :
  client p = Some c ->
  updateTaskStatus env id status p w =
    match getTeamStates env p w with
    | (Throw e, p1, w1) => (Ok None, p1, w1)
    | (Ok states, p1, w1) =>
        let stateId := s_id <$> stateOfType states (mapStatusToStateType status) in
        if negb (truthy_str stateId) then (Ok None, p1, w1)
        else
          match q_issueUpdate env c id (stateInput stateId) w1 with
          | (Ok (true, updatedIssue), w2) =>
              (Ok (Some (issueToTask updatedIssue)),
               with_taskCache (<[id := issueToTask updatedIssue]> (taskCache p1)) p1, w2)
          | (Ok (false, _), w2) => (Ok None, p1, w2)
          | (Throw e, w2) => (Ok None, p1, w2)
          end
    end.
Proof.
  intros Hc. unfold updateTaskStatus. unfold bind at 1. unfold this. rewrite Hc.
  unfold try_catch. cbv zeta. unfold bind at 1.
  destruct (getTeamStates env p w) as [[[states | e] p1] w1] eqn:Hts.
  - rewrite (findStateByType_found _ _ _ _ _ _ Hts).
    destruct (negb (truthy_str _)); [reflexivity |].
    unfold bind at 1. rewrite updateIssue_run.
    fold (stateInput (s_id <$> stateOfType states (mapStatusToStateType status))).
    destruct (q_issueUpdate env c id _ w1) as [[[[|] issue] | e] w2]; reflexivity.
  - rewrite (findStateByType_failed _ _ _ _ _ _ Hts). reflexivity.
Qed.

Lemma claimTask_run id p w c :
  client p = Some c -> userId p <> "" ->
  claimTask env id p w =
    match getTeamStates env p w with
    | (Throw e, p1, w1) => (Ok None, p1, w1)
    | (Ok states, p1, w1) =>
        let stateId := s_id <$> stateOfType states "started" in
        match q_issueUpdate env c id (claimInput stateId (userId p)) w1 with
        | (Ok (true, updatedIssue), w2) =>
            (Ok (Some (issueToTask updatedIssue)), claimed id updatedIssue p1, w2)
        | (Ok (false, _), w2) => (Ok None, p1, w2)
        | (Throw e, w2) => (Ok None, p1, w2)
        end
    end.
Proof.
  intros Hc Hu. apply truthy_str_Some in Hu.
  unfold claimTask. unfold bind at 1. unfold this. rewrite Hc, Hu.
  change (negb true) with false. cbv beta iota.
  unfold try_catch. unfold bind at 1.
  destruct (getTeamStates env p w) as [[[states | e] p1] w1] eqn:Hts.
  - destruct (getTeamStates_frame _ _ _ _ _ Hts) as [_ [Huid _]].
    rewrite (findStateByType_found _ _ _ _ _ _ Hts).
    unfold bind at 1. unfold this. unfold bind at 1. rewrite updateIssue_run.
    rewrite Huid. cbv zeta.
    fold (claimInput (s_id <$> stateOfType states "started") (userId p)).
    destruct (q_issueUpdate env c id _ w1) as [[[[|] issue] | e] w2]; reflexivity.
  - rewrite (findStateByType_failed _ _ _ _ _ _ Hts). reflexivity.
Qed.

(** C10. When the team's workflow has no state of type started, [claimTask]
    reports no missing state: it sends the update with the assignee and no
    state id, and when the service accepts it, returns the normalized task
    and writes it to the cache and to the sync baseline of that id (a
    rejected or failed update gives undefined).  With the same workflow
    [updateTaskStatus] to in_progress sends nothing and returns undefined,
    and [completeTask] on a workflow with no completed state sends nothing
    and returns its failure result. *)
Theorem claimTask_without_started_state id p w c states p1 w1 :
  client p = Some c -> userId p <> "" ->
  getTeamStates env p w = (Ok states, p1, w1) ->
  (forall s, In s states -> s_type s <> "started") ->
  claimTask env id p w =
    match q_issueUpdate env c id (claimInput None (userId p)) w1 with
    | (Ok (true, updatedIssue), w2) =>
        (Ok (Some (issueToTask updatedIssue)), claimed id updatedIssue p1, w2)
    | (Ok (false, _), w2) => (Ok None, p1, w2)
    | (Throw e, w2) => (Ok None, p1, w2)
    end /\
  (forall updatedIssue,
     taskCache (claimed id updatedIssue p1)
       = <[id := issueToTask updatedIssue]> (taskCache p) /\
     lastSyncedTasks (claimed id updatedIssue p1)
       = <[id := {| se_task := issueToTask updatedIssue;
                    se_updatedAt := i_updatedAt updatedIssue |}]> (lastSyncedTasks p)) /\
  updateTaskStatus env id in_progress p w = (Ok None, p1, w1) /\
  (forall reason,
     (forall s, In s states -> s_type s <> "completed") ->
     completeTask env id reason p w = (Ok noCompletedState, p1, w1)).
Proof.
  intros Hc Hu Hts Hlack.
  destruct (getTeamStates_frame _ _ _ _ _ Hts) as [_ [_ [Hcache Hbase]]].
  split; [| split; [| split]].
  - rewrite (claimTask_run id p w c Hc Hu), Hts. cbv zeta.
    rewrite (stateOfType_lacking _ _ Hlack). reflexivity.
  - intros updatedIssue. simpl. rewrite Hcache, Hbase. split; reflexivity.
  - rewrite (updateTaskStatus_run id in_progress p w c Hc), Hts. cbv zeta.
    simpl mapStatusToStateType. rewrite (stateOfType_lacking _ _ Hlack). reflexivity.
  - intros reason Hnone.
    rewrite (completeTask_run id reason p w c Hc), Hts. cbv zeta.
    rewrite (stateOfType_lacking _ _ Hnone). reflexivity.
Qed.

End Workflow.


Lemma claimTask_without_started_state_witness :
  let w := Scenario.world [Scenario.issue1] [Scenario.todo; Scenario.finished] false false in
  exists task p' w',
    claimTask Scenario.service "id-1" Scenario.plugin0 w = (Ok (Some task), p', w') /\
    t_assignee task = Some "ralph@example.com" /\
    t_status task = open /\
    taskCache p' !! "id-1" = Some task /\
    (se_task <$> lastSyncedTasks p' !! "id-1") = Some task /\
    Scenario.w_log w' =
      [Scenario.CIssueUpdate "id-1" (claimInput None "user-1"); Scenario.CTeam "team-1"].
Proof.
  intros w.
  destruct (claimTask_without_started_state Scenario.service "id-1" Scenario.plugin0 w
              {| apiKey := "lin_api_key" |} [Scenario.todo; Scenario.finished]
              (with_stateCache {[ "team-1" := [Scenario.todo; Scenario.finished] ]}
                               Scenario.plugin0)
              (Scenario.logged (Scenario.CTeam "team-1") w)
              eq_refl) as [Hrun _].
  - discriminate.
  - reflexivity.
  - simpl. intros s [<- | [<- | []]]; discriminate.
  - eexists _, _, _. split; [exact Hrun |].
    repeat split; vm_compute; reflexivity.
Defined.

(* ===================================================================== *)
(** ** Where [resolveConflict] lets a failure through                    *)
(* ===================================================================== *)

Section LocalResolution.

Context {W : Type}.
Variable env : Env W.

(** With the 'local' resolution and a detected conflict, a failing workflow
    lookup, a failing update and a rejected update all leave the method as
    exceptions; nothing has been written to cache or baseline by then. *)
Lemma resolveConflict_local_run taskId p w conflict w' :
  detectConflict env taskId p w = (Ok (Some conflict), p, w') ->
  exists c, client p = Some c /\
  resolveConflict env taskId local p w =
    match getTeamStates env p w' with
    | (Throw e, p1, w1) => (Throw e, p1, w1)
    | (Ok states, p1, w1) =>
        let stateId :=
          s_id <$> stateOfType states
                     (mapStatusToStateType (t_status (cf_localVersion conflict))) in
        if truthy_str stateId then
          match q_issueUpdate env c taskId
                  {| in_stateId := stateId; in_assigneeId := None;
                     in_labelIds := None;
                     in_description := t_description (cf_localVersion conflict) |} w1 with
          | (Ok (true, updated), w2) =>
              (Ok (Some (issueToTask updated)), claimed taskId updated p1, w2)
          | (Ok (false, _), w2) => (Throw "Failed to update issue", p1, w2)
          | (Throw e, w2) => (Throw e, p1, w2)
          end
        else (Ok (Some (cf_remoteVersion conflict)), p1, w1)
    end.
Proof.
  intros Hd.
  destruct (detectConflict_Some_inv env _ _ _ _ _ _ Hd) as [_ [c [_ [_ [Hc _]]]]].
  exists c. split; [exact Hc |].
  rewrite (resolveConflict_conflict env taskId local p w c conflict w' Hc Hd).
  unfold bind at 1.
  destruct (getTeamStates env p w') as [[[states | e] p1] w1] eqn:Hts.
  - rewrite (findStateByType_found env _ _ _ _ _ _ Hts). cbv zeta.
    destruct (truthy_str _); [| reflexivity].
    unfold bind at 1. rewrite updateIssue_run.
    destruct (q_issueUpdate env c taskId _ w1) as [[[[|] issue] | e] w2]; reflexivity.
  - rewrite (findStateByType_failed env _ _ _ _ _ _ Hts). reflexivity.
Qed.

(** The other public methods return on every input and every behaviour of
    the service. *)
Lemma public_methods_never_throw :
  (forall filter, never_throws (getTasks env filter)) /\
  (forall id, never_throws (getTask env id)) /\
  (forall filter, never_throws (getNextTask env filter)) /\
  (forall id, never_throws (claimTask env id)) /\
  (forall id reason, never_throws (completeTask env id reason)) /\
  (forall id status, never_throws (updateTaskStatus env id status)) /\
  never_throws (sync env) /\
  (forall id, never_throws (detectConflict env id)) /\
  (forall filter, never_throws (isComplete env filter)) /\
  (forall id, never_throws (isTaskReady env id)) /\
  never_throws (getEpics env) /\
  (forall id, never_throws (resolveConflict env id remote)) /\
  (forall id, never_throws (resolveConflict env id merge)).
Proof.
  repeat split.
  - apply getTasks_never_throws.
  - apply getTask_never_throws.
  - apply getNextTask_never_throws.
  - apply claimTask_never_throws.
  - apply completeTask_never_throws.
  - apply updateTaskStatus_never_throws.
  - apply sync_never_throws.
  - apply detectConflict_never_throws.
  - apply isComplete_never_throws.
  - apply isTaskReady_never_throws.
  - apply getEpics_never_throws.
  - intros id. apply resolveConflict_never_throws_unless_local. discriminate.
  - intros id. apply resolveConflict_never_throws_unless_local. discriminate.
Qed.

End LocalResolution.

(* ===================================================================== *)
(** ** Further properties: translation and normalization                 *)
(* ===================================================================== *)

Section TranslationFacts.

(** X1. Translating a unified status to a remote type and back returns the
    status, except that blocked comes back as in_progress; translating a
    known remote type to a status and back returns the type, except that
    backlog comes back as unstarted. *)
Theorem status_round_trip :
  (forall s : TrackerTaskStatus,
     mapStateToStatus (mapStatusToStateType s)
       = match s with blocked => in_progress | _ => s end) /\
  (forall ty : LinearStateType,
     In ty ["backlog"; "unstarted"; "started"; "completed"; "canceled"] ->
     mapStatusToStateType (mapStateToStatus ty)
       = if String.eqb ty "backlog" then "unstarted" else ty).
Proof.
  split.
  - intros []; reflexivity.
  - intros ty H. simpl in H.
    destruct H as [<- | [<- | [<- | [<- | [<- | []]]]]]; reflexivity.
Qed.

Lemma status_round_trip_witness :
  In "canceled" ["backlog"; "unstarted"; "started"; "completed"; "canceled"] /\
  mapStatusToStateType (mapStateToStatus "canceled") = "canceled".
Proof.
  assert (H : In "canceled" ["backlog"; "unstarted"; "started"; "completed"; "canceled"])
    by (simpl; tauto).
  split; [exact H |].
  exact (proj2 status_round_trip "canceled" H).
Defined.

(** X2. Whatever integer the service sends as priority, the unified
    priority lies in 0..4; on set priorities (1 and above) the translation
    keeps the order of urgency, and an unset priority (0) lands on the same
    value as remote 3. *)
Theorem mapPriority_range_and_order :
  (forall p : Z, 0 <= mapPriority p <= 4) /\
  (forall p q : Z, 1 <= p -> p <= q -> mapPriority p <= mapPriority q) /\
  mapPriority 0 = mapPriority 3.
Proof.
  split; [| split; [| reflexivity]].
  - apply mapPriority_bounds.
  - intros p q Hp Hq. unfold mapPriority.
    destruct (Z.eqb_spec p 0); [lia |]. destruct (Z.eqb_spec q 0); lia.
Qed.

Lemma mapPriority_range_and_order_witness :
  1 <= 2 /\ 2 <= 7 /\ mapPriority 2 <= mapPriority 7.
Proof.
  split; [lia |]. split; [lia |].
  apply (proj1 (proj2 mapPriority_range_and_order) 2 7); lia.
Defined.

Lemma filter_length_le {A} (f : A -> bool) (l : list A) :
  (length (List.filter f l) <= length l)%nat.
Proof.
  induction l as [| x r IH]; simpl; [lia |]. destruct (f x); simpl; lia.
Qed.

(** X3. A normalized task keeps the issue's id and [updatedAt], never has
    status blocked, has a priority in 0..4, is of type epic or task (epic
    exactly when some label is "epic" up to ASCII case), carries no
    dependencies, and counts no more finished children than children. *)
Theorem issueToTask_normal_form (issue : LinearIssue) :
  let task := issueToTask issue in
  t_id task = i_id issue /\
  t_updatedAt task = Some (i_updatedAt issue) /\
  t_status task <> blocked /\
  0 <= t_priority task <= 4 /\
  (t_type task = Some "epic" \/ t_type task = Some "task") /\
  (t_type task = Some "epic" <->
   exists l, In l (i_labels issue) /\ toLowerCase (l_name l) = "epic") /\
  t_dependsOn task = None /\
  (exists md, t_metadata task = Some md /\
              (md_completedChildCount md <= md_childCount md)%nat).
Proof.
  intros task. subst task. simpl.
  split; [reflexivity |]. split; [reflexivity |].
  split; [apply mapStateToStatus_range |].
  split; [apply mapPriority_bounds |].
  split; [destruct (existsb _ _); [left | right]; reflexivity |].
  split.
  - destruct (existsb _ (map l_name (i_labels issue))) eqn:E.
    + split; [intros _ | reflexivity].
      apply List.existsb_exists in E. destruct E as [n [Hn Heq]].
      apply List.in_map_iff in Hn. destruct Hn as [l [<- Hl]].
      exists l. split; [exact Hl | apply String.eqb_eq; exact Heq].
    + split; [discriminate |]. intros [l [Hl Heq]]. exfalso.
      assert (Ht : existsb (fun l0 => String.eqb (toLowerCase l0) "epic")
                     (map l_name (i_labels issue)) = true).
      { apply List.existsb_exists. exists (l_name l).
        split; [apply List.in_map; exact Hl | apply String.eqb_eq; exact Heq]. }
      congruence.
  - split; [reflexivity |]. eexists. split; [reflexivity |]. simpl.
    destruct (i_children issue) as [cs |]; simpl; [| lia].
    apply length_filter.
Qed.

End TranslationFacts.

(* ===================================================================== *)
(** ** Further properties: filtering and ordering                        *)
(* ===================================================================== *)

Section FilterFacts.

Implicit Types (f : TaskFilter) (t : TrackerTask) (tasks : list TrackerTask).

Lemma List_filter_sublist {A} (q : A -> bool) (l : list A) :
  sublist (List.filter q l) l.
Proof.
  induction l as [| x r IH]; simpl; [constructor |].
  destruct (q x); [apply sublist_skip | apply sublist_cons]; exact IH.
Qed.

Lemma filterTasks_sublist_aux tasks filter : sublist (filterTasks tasks filter) tasks.
Proof.
  destruct filter as [f |]; [| reflexivity].
  rewrite filterTasks_fused, applyLimit_spec, applyOffset_spec.
  assert (H : sublist (List.filter (matchesAll f tasks) tasks) tasks)
    by apply List_filter_sublist.
  assert (H2 : sublist (match f_offset f with
                        | Some n => if 0 <? n
                                    then drop (Z.to_nat n) (List.filter (matchesAll f tasks) tasks)
                                    else List.filter (matchesAll f tasks) tasks
                        | None => List.filter (matchesAll f tasks) tasks
                        end) tasks).
  { destruct (f_offset f) as [n |]; [destruct (0 <? n) |]; try exact H.
    etransitivity; [apply sublist_drop | exact H]. }
  destruct (f_limit f) as [n |]; [destruct (0 <? n) |]; try exact H2.
  etransitivity; [apply sublist_take | exact H2].
Qed.

(** X4. The result of [filterTasks] is the input with some tasks left out:
    it never adds, duplicates or reorders a task, so it is no longer than
    the input and its tasks come from the input. *)
Theorem filterTasks_sublist tasks filter :
  sublist (filterTasks tasks filter) tasks /\
  (length (filterTasks tasks filter) <= length tasks)%nat /\
  (forall t, In t (filterTasks tasks filter) -> In t tasks).
Proof.
  pose proof (filterTasks_sublist_aux tasks filter) as H.
  split; [exact H |]. split; [apply sublist_length; exact H |].
  intros t Ht. apply list_elem_of_In. apply (sublist_subseteq _ _ H).
  apply list_elem_of_In. exact Ht.
Qed.



Lemma readyPred_normalized f tasks (issue : LinearIssue) :
  readyPred f tasks (issueToTask issue) = true.
Proof. unfold readyPred. destruct (f_ready f) as [[|] |]; reflexivity. Qed.

Lemma filter_ext_In {A} (g h : A -> bool) (l : list A) :
  (forall x, In x l -> g x = h x) -> List.filter g l = List.filter h l.
Proof.
  induction l as [| x r IH]; intros H; [reflexivity |]. simpl.
  rewrite (H x (or_introl eq_refl)), IH; [reflexivity |].
  intros y Hy. apply H. right. exact Hy.
Qed.

(** X6. Tasks normalized from Linear issues carry no dependencies, so each
    of them is ready against any task set, and asking [filterTasks] for
    ready tasks only removes nothing from a fetched list. *)
Theorem fetched_tasks_are_ready (issues : list LinearIssue) f :
  (forall issue allTasks, checkTaskReady (issueToTask issue) allTasks = true) /\
  filterTasks (map issueToTask issues) (Some (filter_with_ready (Some true) f))
    = filterTasks (map issueToTask issues) (Some (filter_with_ready None f)).
Proof.
  split; [reflexivity |].
  rewrite !filterTasks_fused, !applyLimit_spec, !applyOffset_spec. simpl.
  rewrite (filter_ext_In
             (matchesAll (filter_with_ready (Some true) f) (map issueToTask issues))
             (matchesAll (filter_with_ready None f) (map issueToTask issues)));
    [reflexivity |].
  intros t Ht. apply List.in_map_iff in Ht. destruct Ht as [issue [<- _]].
  unfold matchesAll. f_equal.
Qed.

(** X7. Without paging and without the readiness criterion, filtering is
    idempotent: filtering a result again by the same filter changes
    nothing. *)
Theorem filterTasks_idempotent tasks f :
  f_offset f = None -> f_limit f = None -> f_ready f = None ->
  filterTasks (filterTasks tasks (Some f)) (Some f) = filterTasks tasks (Some f).
Proof.
  intros Ho Hl Hr.
  rewrite !filterTasks_fused, !applyLimit_spec, !applyOffset_spec, Ho, Hl.
  set (kept := List.filter (matchesAll f tasks) tasks).
  assert (Hsame : forall t l, matchesAll f l t = matchesAll f tasks t).
  { intros t l. unfold matchesAll, readyPred. rewrite Hr. reflexivity. }
  rewrite (filter_ext_In (matchesAll f kept) (matchesAll f tasks))
    by (intros; apply Hsame).
  subst kept. rewrite filter_filter.
  apply List.filter_ext. intros t. apply andb_diag.
Qed.

Lemma filterTasks_idempotent_witness :
  let a := Scenario.mkTask "a" open 2 ["urgent"] [] in
  let b := Scenario.mkTask "b" completed 1 ["urgent"] [] in
  let f := {| f_status := Some (One open); f_labels := Some ["urgent"];
              f_priority := None; f_parentId := None; f_assignee := None;
              f_type := None; f_ready := None; f_limit := None;
              f_offset := None; f_excludeIds := None |} in
  filterTasks [a; b] (Some f) = [a] /\
  filterTasks (filterTasks [a; b] (Some f)) (Some f) = filterTasks [a; b] (Some f).
Proof.
  intros a b f. split; [reflexivity |].
  apply (filterTasks_idempotent [a; b] f); reflexivity.
Defined.

Lemma sortInsert_class (k : Z) t (l : list TrackerTask) :
  List.filter (fun u => t_priority u =? k) (sortInsert t l)
  = List.filter (fun u => t_priority u =? k) (t :: l).
Proof.
  induction l as [| x r IH]; [reflexivity |].
  simpl sortInsert. destruct (Z.leb_spec (t_priority t) (t_priority x)) as [Hle | Hgt];
    [reflexivity |].
  simpl. simpl in IH. rewrite IH.
  destruct (Z.eqb_spec (t_priority x) k) as [Hx | Hx];
    destruct (Z.eqb_spec (t_priority t) k) as [Ht | Ht]; try reflexivity.
  lia.
Qed.

(** X8. The ordering used by [getNextTask] is stable: tasks of equal
    priority keep the order in which they were fetched. *)
Theorem sortByPriority_stable (k : Z) (l : list TrackerTask) :
  List.filter (fun u => t_priority u =? k) (sortByPriority l)
  = List.filter (fun u => t_priority u =? k) l.
Proof.
  induction l as [| x r IH]; [reflexivity |].
  simpl sortByPriority. rewrite sortInsert_class. simpl. rewrite IH. reflexivity.
Qed.

End FilterFacts.

(* ===================================================================== *)
(** ** Further properties: the task cache                                *)
(* ===================================================================== *)

Section CacheFacts.

Context {W : Type}.
Variable env : Env W.

Implicit Types (p : Plugin) (w : W) (m : gmap string TrackerTask).

Lemma cacheAll_cons (t : TrackerTask) (tasks : list TrackerTask) m :
  cacheAll (t :: tasks) m = cacheAll tasks (<[t_id t := t]> m).
Proof. reflexivity. Qed.

Lemma cacheAll_other (tasks : list TrackerTask) m (id : string) :
  (forall t, In t tasks -> t_id t <> id) -> cacheAll tasks m !! id = m !! id.
Proof.
  revert m. induction tasks as [| x r IH]; intros m H; [reflexivity |].
  rewrite cacheAll_cons, IH by (intros t Ht; apply H; right; exact Ht).
  apply lookup_insert_ne. apply H. left. reflexivity.
Qed.

Lemma cacheAll_fetched (tasks : list TrackerTask) m (t : TrackerTask) :
  In t tasks ->
  exists t', In t' tasks /\ t_id t' = t_id t /\ cacheAll tasks m !! t_id t = Some t'.
Proof.
  revert m t. induction tasks as [| x r IH]; intros m t Hin; [destruct Hin |].
  rewrite cacheAll_cons.
  destruct (findById r (t_id t)) as [d |] eqn:E.
  - apply findById_Some in E. destruct E as [Hd Hid].
    destruct (IH (<[t_id x := x]> m) d Hd) as [t' [Ht' [Hid' Hl]]].
    exists t'. split; [right; exact Ht' |]. split; [congruence |].
    rewrite <- Hid. exact Hl.
  - pose proof (proj1 (findById_None r (t_id t)) E) as Hnone.
    destruct Hin as [-> | Hin]; [| exfalso; exact (Hnone t Hin eq_refl)].
    exists t. split; [left; reflexivity |]. split; [reflexivity |].
    rewrite cacheAll_other by exact Hnone. apply lookup_insert_eq.
Qed.

Lemma cacheAll_fetched_unique (tasks : list TrackerTask) m (t : TrackerTask) :
  List.NoDup (map t_id tasks) -> In t tasks -> cacheAll tasks m !! t_id t = Some t.
Proof.
  revert m. induction tasks as [| x r IH]; intros m Hnd Hin; [destruct Hin |].
  rewrite cacheAll_cons. simpl in Hnd. apply List.NoDup_cons_iff in Hnd.
  destruct Hnd as [Hx Hr]. destruct Hin as [-> | Hin].
  - rewrite cacheAll_other; [apply lookup_insert_eq |].
    intros u Hu Heq. apply Hx. rewrite <- Heq. apply List.in_map. exact Hu.
  - apply IH; assumption.
Qed.

Lemma NoDup_issue_ids (issues : list LinearIssue) :
  List.NoDup (map i_id issues) -> List.NoDup (map t_id (map issueToTask issues)).
Proof. rewrite List.map_map. simpl. exact (fun H => H). Qed.

(** X9. A successful [getTasks] stores every fetched task in the cache under
    its id, whether or not the filter lets it through (with distinct ids,
    each fetched issue's own normalization); it leaves the entries of ids
    that were not fetched, so nothing is ever evicted, and it does not touch
    the sync baseline. *)
Theorem getTasks_cache_effect filter p w c issues w' :
  client p = Some c -> projectId p <> "" ->
  q_issuesByLabel env c (projectId p) (labelName p) w = (Ok issues, w') ->
  exists p',
    getTasks env filter p w = (Ok (filterTasks (map issueToTask issues) filter), p', w') /\
    lastSyncedTasks p' = lastSyncedTasks p /\
    (forall id, (forall issue, In issue issues -> i_id issue <> id) ->
                taskCache p' !! id = taskCache p !! id) /\
    (forall issue, In issue issues ->
       exists issue', In issue' issues /\ i_id issue' = i_id issue /\
                      taskCache p' !! i_id issue = Some (issueToTask issue')) /\
    (List.NoDup (map i_id issues) ->
     forall issue, In issue issues ->
                   taskCache p' !! i_id issue = Some (issueToTask issue)).
Proof.
  intros Hc Hp Hq. eexists.
  split; [exact (getTasks_fetched env filter p w c issues w' Hc Hp Hq) |].
  simpl. split; [reflexivity |]. split; [| split].
  - intros id Hid. apply cacheAll_other. intros t Ht.
    apply List.in_map_iff in Ht. destruct Ht as [issue [<- Hi]]. exact (Hid issue Hi).
  - intros issue Hi.
    destruct (cacheAll_fetched (map issueToTask issues) (taskCache p) (issueToTask issue))
      as [t' [Ht' [Hid Hl]]]; [apply List.in_map; exact Hi |].
    apply List.in_map_iff in Ht'. destruct Ht' as [issue' [<- Hi']].
    exists issue'. split; [exact Hi' |]. split; [exact Hid | exact Hl].
  - intros Hnd issue Hi.
    apply (cacheAll_fetched_unique (map issueToTask issues) (taskCache p) (issueToTask issue));
      [apply NoDup_issue_ids; exact Hnd | apply List.in_map; exact Hi].
Qed.

Lemma getTask_cached id p w (t : TrackerTask) :
  taskCache p !! id = Some t -> getTask env id p w = (Ok (Some t), p, w).
Proof. intros H. unfold getTask, bind, this. rewrite H. reflexivity. Qed.

Lemma getTask_fetched id p w c issue w' :
  taskCache p !! id = None -> client p = Some c ->
  q_issue env c id w = (Ok issue, w') ->
  getTask env id p w =
    (Ok (Some (issueToTask issue)),
     with_taskCache (<[id := issueToTask issue]> (taskCache p)) p, w').
Proof.
  intros Hm Hc Hq. unfold getTask, bind, this. rewrite Hm, Hc.
  unfold try_catch, bind, getIssue, request. rewrite Hq. reflexivity.
Qed.

Lemma getTask_fetch_failed id p w c e w' :
  taskCache p !! id = None -> client p = Some c ->
  q_issue env c id w = (Throw e, w') ->
  getTask env id p w = (Ok None, p, w').
Proof.
  intros Hm Hc Hq. unfold getTask, bind, this. rewrite Hm, Hc.
  unfold try_catch, bind, getIssue, request. rewrite Hq. reflexivity.
Qed.

Lemma getTask_disconnected id p w :
  taskCache p !! id = None -> client p = None ->
  getTask env id p w = (Ok None, p, w).
Proof. intros Hm Hc. unfold getTask, bind, this. rewrite Hm, Hc. reflexivity. Qed.

(** X10. [getTask] reads through the cache: on a miss with a successful
    fetch it returns the normalized issue and stores it under the requested
    id without creating a baseline, and from then on the same id is served
    from the cache, with no request to the service and no change of state,
    whatever the service would answer. *)
Theorem getTask_read_through id p w c issue w' :
  taskCache p !! id = None -> client p = Some c ->
  q_issue env c id w = (Ok issue, w') ->
  exists p',
    getTask env id p w = (Ok (Some (issueToTask issue)), p', w') /\
    taskCache p' = <[id := issueToTask issue]> (taskCache p) /\
    lastSyncedTasks p' = lastSyncedTasks p /\
    (forall w2, getTask env id p' w2 = (Ok (Some (issueToTask issue)), p', w2)).
Proof.
  intros Hm Hc Hq. eexists.
  split; [exact (getTask_fetched id p w c issue w' Hm Hc Hq) |].
  split; [reflexivity |]. split; [reflexivity |].
  intros w2. apply getTask_cached. simpl. apply lookup_insert_eq.
Qed.

(** X11. On a cache miss [getTask] gives undefined, without changing the
    plugin, when there is no client (then without any request) or when the
    fetch fails. *)
Theorem getTask_absent id p w :
  taskCache p !! id = None ->
  (client p = None -> getTask env id p w = (Ok None, p, w)) /\
  (forall c e w', client p = Some c -> q_issue env c id w = (Throw e, w') ->
                  getTask env id p w = (Ok None, p, w')).
Proof.
  intros Hm. split.
  - apply getTask_disconnected. exact Hm.
  - intros c e w' Hc Hq. eapply getTask_fetch_failed; eassumption.
Qed.

End CacheFacts.

Lemma getTasks_cache_effect_witness :
  let issues := [Scenario.issueA; Scenario.issueB; Scenario.issueC] in
  let w := Scenario.world issues [Scenario.todo; Scenario.doing] false false in
  let onlyDone := {| f_status := Some (One completed); f_labels := None;
                     f_priority := None; f_parentId := None; f_assignee := None;
                     f_type := None; f_ready := None; f_limit := None;
                     f_offset := None; f_excludeIds := None |} in
  exists p' w',
    getTasks Scenario.service (Some onlyDone) Scenario.plugin1 w = (Ok [], p', w') /\
    taskCache p' !! "B" = Some (issueToTask Scenario.issueB) /\
    taskCache p' !! "id-1" = Some (issueToTask Scenario.issue1).
Proof.
  intros issues w onlyDone.
  destruct (getTasks_cache_effect Scenario.service (Some onlyDone) Scenario.plugin1 w
              {| apiKey := "lin_api_key" |} issues
              (Scenario.logged (Scenario.CIssuesByLabel "proj-1" "ralph-tui") w))
    as [p' [Hrun [_ [Hother [_ Hfetched]]]]];
    [reflexivity | discriminate | reflexivity |].
  exists p', (Scenario.logged (Scenario.CIssuesByLabel "proj-1" "ralph-tui") w).
  split; [exact Hrun |]. split.
  - apply (Hfetched ltac:(vm_compute; repeat constructor; simpl; intuition discriminate)
                    Scenario.issueB).
    simpl. tauto.
  - rewrite (Hother "id-1"); [reflexivity |].
    intros issue [<- | [<- | [<- | []]]]; discriminate.
Defined.

Lemma getTask_read_through_witness :
  let w := Scenario.world [Scenario.issue1] [Scenario.todo] false false in
  exists p' w',
    getTask Scenario.service "id-1" Scenario.plugin0 w
      = (Ok (Some (issueToTask Scenario.issue1)), p', w') /\
    lastSyncedTasks p' !! "id-1" = None /\
    getTask Scenario.service "id-1" p' (Scenario.world [] [] false false)
      = (Ok (Some (issueToTask Scenario.issue1)), p', Scenario.world [] [] false false).
Proof.
  intros w.
  destruct (getTask_read_through Scenario.service "id-1" Scenario.plugin0 w
              {| apiKey := "lin_api_key" |} Scenario.issue1
              (Scenario.logged (Scenario.CIssue "id-1") w) eq_refl eq_refl eq_refl)
    as [p' [Hrun [_ [Hbase Hagain]]]].
  exists p', (Scenario.logged (Scenario.CIssue "id-1") w).
  split; [exact Hrun |]. split; [rewrite Hbase; reflexivity | apply Hagain].
Defined.

Lemma getTask_absent_witness :
  let w := Scenario.world [] [Scenario.todo] false false in
  getTask Scenario.service "id-9" Scenario.plugin0 w
    = (Ok None, Scenario.plugin0, Scenario.logged (Scenario.CIssue "id-9") w).
Proof.
  intros w.
  exact (proj2 (getTask_absent Scenario.service "id-9" Scenario.plugin0 w eq_refl)
           {| apiKey := "lin_api_key" |} "Linear GraphQL error: Entity not found"
           (Scenario.logged (Scenario.CIssue "id-9") w) eq_refl eq_refl).
Defined.

(* ===================================================================== *)
(** ** Further properties: synchronization                               *)
(* ===================================================================== *)

Section SyncFacts.

Context {W : Type}.
Variable env : Env W.

Implicit Types (p : Plugin) (w : W) (issues : list LinearIssue).

Lemma stores_self p : stores (taskCache p) (lastSyncedTasks p) p = p.
Proof. destruct p; reflexivity. Qed.

Lemma baselineAll_other issues (m : gmap string SyncedEntry) (id : string) :
  (forall issue, In issue issues -> i_id issue <> id) ->
  baselineAll issues m !! id = m !! id.
Proof.
  revert m. induction issues as [| x r IH]; intros m H; [reflexivity |].
  unfold baselineAll in *. simpl. rewrite IH by (intros i Hi; apply H; right; exact Hi).
  apply lookup_insert_ne. apply H. left. reflexivity.
Qed.

Lemma baselineAll_fetched_unique issues (m : gmap string SyncedEntry) issue :
  List.NoDup (map i_id issues) -> In issue issues ->
  baselineAll issues m !! i_id issue = Some (baselineOf issue).
Proof.
  revert m. induction issues as [| x r IH]; intros m Hnd Hin; [destruct Hin |].
  simpl in Hnd. apply List.NoDup_cons_iff in Hnd. destruct Hnd as [Hx Hr].
  change (baselineAll (x :: r) m) with (baselineAll r (<[i_id x := baselineOf x]> m)).
  destruct Hin as [-> | Hin].
  - rewrite baselineAll_other; [apply lookup_insert_eq |].
    intros u Hu Heq. apply Hx. rewrite <- Heq. apply List.in_map. exact Hu.
  - apply IH; assumption.
Qed.

Lemma syncFold_cons (acc : nat * nat * Plugin) (x : LinearIssue) issues :
  foldl syncStep acc (x :: issues) = foldl syncStep (syncStep acc x) issues.
Proof. reflexivity. Qed.

(** The loop of [sync] writes both stores and nothing else. *)
Lemma syncFold_stores issues (a u : nat) cache baseline p :
  snd (foldl syncStep (a, u, stores cache baseline p) issues)
  = stores (cacheAll (map issueToTask issues) cache) (baselineAll issues baseline) p.
Proof.
  revert a u cache baseline.
  induction issues as [| x r IH]; intros a u cache baseline; [reflexivity |].
  rewrite syncFold_cons.
  destruct (syncStep (a, u, stores cache baseline p) x) as [[a' u'] p'] eqn:E.
  assert (Hp' : p' = stores (<[i_id x := issueToTask x]> cache)
                            (<[i_id x := baselineOf x]> baseline) p).
  { unfold syncStep in E. simpl in E.
    destruct (cache !! i_id x) as [t |];
      [destruct (bool_decide _) |]; injection E as _ _ <-; reflexivity. }
  rewrite Hp'. apply IH.
Qed.

Lemma syncFold_bounds issues (a u : nat) p :
  let '(a', u', _) := foldl syncStep (a, u, p) issues in
  (a <= a' /\ u <= u' /\ a' + u' <= a + u + length issues)%nat.
Proof.
  revert a u p. induction issues as [| x r IH]; intros a u p; [simpl; lia |].
  rewrite syncFold_cons.
  destruct (syncStep (a, u, p) x) as [[a1 u1] p1] eqn:E.
  assert (Hstep : (a <= a1 /\ u <= u1 /\ a1 + u1 <= a + u + 1)%nat).
  { unfold syncStep in E.
    destruct (taskCache p !! t_id (issueToTask x)) as [t |];
      [destruct (bool_decide _) |]; injection E as <- <- _; lia. }
  specialize (IH a1 u1 p1).
  destruct (foldl syncStep (a1, u1, p1) r) as [[a' u'] p']. simpl. lia.
Qed.

(** Issues none of which is cached are all counted as added. *)
Lemma syncFold_fresh issues (a u : nat) cache baseline p :
  List.NoDup (map i_id issues) ->
  (forall issue, In issue issues -> cache !! i_id issue = None) ->
  fst (foldl syncStep (a, u, stores cache baseline p) issues)
  = ((a + length issues)%nat, u).
Proof.
  revert a u cache baseline.
  induction issues as [| x r IH]; intros a u cache baseline Hnd Hnone.
  { simpl. f_equal. lia. }
  simpl in Hnd. apply List.NoDup_cons_iff in Hnd. destruct Hnd as [Hx Hr].
  rewrite syncFold_cons.
  assert (E : syncStep (a, u, stores cache baseline p) x
              = (S a, u, stores (<[i_id x := issueToTask x]> cache)
                                (<[i_id x := baselineOf x]> baseline) p)).
  { unfold syncStep. simpl. rewrite (Hnone x (or_introl eq_refl)). reflexivity. }
  rewrite E, IH; [simpl; f_equal; lia | exact Hr |].
  intros issue Hi. rewrite lookup_insert_ne; [apply Hnone; right; exact Hi |].
  intros Heq. apply Hx. rewrite Heq. apply List.in_map. exact Hi.
Qed.

(** Issues that are cached and recorded as they are change nothing. *)
Lemma syncFold_unchanged issues (a u : nat) cache baseline p :
  (forall issue, In issue issues ->
     cache !! i_id issue = Some (issueToTask issue) /\
     baseline !! i_id issue = Some (baselineOf issue)) ->
  foldl syncStep (a, u, stores cache baseline p) issues
  = (a, u, stores cache baseline p).
Proof.
  induction issues as [| x r IH]; intros H; [reflexivity |].
  rewrite syncFold_cons.
  destruct (H x (or_introl eq_refl)) as [Hc Hb].
  assert (E : syncStep (a, u, stores cache baseline p) x
              = (a, u, stores cache baseline p)).
  { unfold syncStep. simpl. rewrite Hc.
    rewrite bool_decide_eq_false_2 by (intros N; apply N; reflexivity).
    rewrite (insert_id cache _ _ Hc), (insert_id baseline _ _ Hb). reflexivity. }
  rewrite E. apply IH. intros issue Hi. apply H. right. exact Hi.
Qed.

Lemma sync_fetched p w c issues w' :
  client p = Some c -> projectId p <> "" ->
  q_issuesByLabel env c (projectId p) (labelName p) w = (Ok issues, w') ->
  sync env p w =
    (Ok (syncReport (length issues) (fst (fst (syncAll issues p)))
                    (snd (fst (syncAll issues p))) (fst (now env w'))),
     snd (syncAll issues p), snd (now env w')).
Proof.
  intros Hc Hp Hq. apply truthy_str_Some in Hp.
  unfold sync. unfold bind at 1. unfold this. rewrite Hc, Hp.
  change (negb true) with false. cbv beta iota.
  unfold try_catch. unfold bind at 1. unfold getIssuesByLabel, request. rewrite Hq.
  unfold bind at 1. unfold this.
  fold (syncAll issues p). destruct (syncAll issues p) as [[a u] p1].
  unfold bind at 1. unfold update. unfold bind at 1. unfold clock.
  destruct (now env w') as [s w2]. reflexivity.
Qed.

Lemma syncAll_stores issues p :
  snd (syncAll issues p)
  = stores (cacheAll (map issueToTask issues) (taskCache p))
           (baselineAll issues (lastSyncedTasks p)) p.
Proof.
  unfold syncAll. rewrite <- (stores_self p) at 1. apply syncFold_stores.
Qed.

(** X12. A successful [sync] reports success with counts that together do
    not exceed the number of fetched issues, and records every fetched issue
    (with distinct ids) in the cache and in the baseline, the latter with
    the issue's own [updatedAt]; entries of ids that were not fetched stay
    in both stores, so [sync] never removes anything. *)
Theorem sync_effect p w c issues w' :
  client p = Some c -> projectId p <> "" ->
  q_issuesByLabel env c (projectId p) (labelName p) w = (Ok issues, w') ->
  exists res p' w2,
    sync env p w = (Ok res, p', w2) /\
    sr_success res = true /\
    (exists added updated,
       sr_added res = Some added /\ sr_updated res = Some updated /\
       (added + updated <= length issues)%nat) /\
    (forall id, (forall issue, In issue issues -> i_id issue <> id) ->
       taskCache p' !! id = taskCache p !! id /\
       lastSyncedTasks p' !! id = lastSyncedTasks p !! id) /\
    (List.NoDup (map i_id issues) ->
     forall issue, In issue issues ->
       taskCache p' !! i_id issue = Some (issueToTask issue) /\
       lastSyncedTasks p' !! i_id issue
         = Some {| se_task := issueToTask issue; se_updatedAt := i_updatedAt issue |}).
Proof.
  intros Hc Hp Hq. eexists _, _, _.
  split; [exact (sync_fetched p w c issues w' Hc Hp Hq) |].
  split; [reflexivity |].
  rewrite syncAll_stores. split; [| split].
  - eexists _, _. split; [reflexivity |]. split; [reflexivity |].
    pose proof (syncFold_bounds issues 0 0 p) as Hb. fold (syncAll issues p) in Hb.
    destruct (syncAll issues p) as [[a u] p1]. simpl. lia.
  - intros id Hid. simpl. split.
    + apply cacheAll_other. intros t Ht.
      apply List.in_map_iff in Ht. destruct Ht as [issue [<- Hi]]. exact (Hid issue Hi).
    + apply baselineAll_other. exact Hid.
  - intros Hnd issue Hi. simpl. split.
    + apply (cacheAll_fetched_unique (map issueToTask issues) (taskCache p) (issueToTask issue));
        [apply NoDup_issue_ids; exact Hnd | apply List.in_map; exact Hi].
    + apply baselineAll_fetched_unique; assumption.
Qed.

(** X13. With distinct ids, a [sync] that finds none of the fetched ids in
    the cache counts every issue as added and none as updated; a second
    [sync] that fetches the same issues counts nothing and leaves the plugin
    as the first left it. *)
Theorem sync_first_then_again p w c issues w' :
  client p = Some c -> projectId p <> "" ->
  q_issuesByLabel env c (projectId p) (labelName p) w = (Ok issues, w') ->
  List.NoDup (map i_id issues) ->
  exists res p' w2,
    sync env p w = (Ok res, p', w2) /\
    ((forall issue, In issue issues -> taskCache p !! i_id issue = None) ->
     sr_added res = Some (length issues) /\ sr_updated res = Some 0%nat) /\
    (forall w3 w4,
       q_issuesByLabel env c (projectId p) (labelName p) w3 = (Ok issues, w4) ->
       exists res2 w5,
         sync env p' w3 = (Ok res2, p', w5) /\
         sr_added res2 = Some 0%nat /\ sr_updated res2 = Some 0%nat).
Proof.
  intros Hc Hp Hq Hnd. eexists _, _, _.
  split; [exact (sync_fetched p w c issues w' Hc Hp Hq) |].
  split.
  - intros Hnone. simpl. unfold syncAll. rewrite <- (stores_self p).
    rewrite syncFold_fresh by assumption. split; reflexivity.
  - intros w3 w4 Hq2. rewrite syncAll_stores.
    set (p1 := stores (cacheAll (map issueToTask issues) (taskCache p))
                      (baselineAll issues (lastSyncedTasks p)) p).
    assert (Hsame : syncAll issues p1 = (0%nat, 0%nat, p1)).
    { unfold syncAll, p1. apply syncFold_unchanged. intros issue Hi. split.
      - apply (cacheAll_fetched_unique (map issueToTask issues) (taskCache p)
                 (issueToTask issue));
          [apply NoDup_issue_ids; exact Hnd | apply List.in_map; exact Hi].
      - apply baselineAll_fetched_unique; assumption. }
    eexists _, _.
    split; [rewrite (sync_fetched p1 w3 c issues w4 Hc Hp Hq2), Hsame; reflexivity |].
    split; reflexivity.
Qed.

(** X14. After a successful [sync] (distinct ids), [detectConflict] on a
    fetched id reports nothing as long as the service still returns that
    issue with the [updatedAt] it had when fetched, whatever else the reply
    holds. *)
Theorem sync_then_no_conflict p w c issues w' issue w3 remoteIssue w4 :
  client p = Some c -> projectId p <> "" ->
  q_issuesByLabel env c (projectId p) (labelName p) w = (Ok issues, w') ->
  List.NoDup (map i_id issues) -> In issue issues ->
  q_issue env c (i_id issue) w3 = (Ok remoteIssue, w4) ->
  i_updatedAt remoteIssue = i_updatedAt issue ->
  exists res p' w2,
    sync env p w = (Ok res, p', w2) /\
    detectConflict env (i_id issue) p' w3 = (Ok None, p', w4).
Proof.
  intros Hc Hp Hq Hnd Hi Hq2 Hts. eexists _, _, _.
  split; [exact (sync_fetched p w c issues w' Hc Hp Hq) |].
  rewrite syncAll_stores.
  erewrite detectConflict_fetched;
    [| exact Hc | simpl; apply baselineAll_fetched_unique; eassumption | exact Hq2].
  simpl. rewrite bool_decide_eq_false_2 by (intros N; apply N; exact Hts).
  reflexivity.
Qed.

End SyncFacts.

Lemma sync_effect_witness :
  let issues := [Scenario.issueA; Scenario.issueB] in
  let w := Scenario.world issues [Scenario.todo; Scenario.doing] false false in
  exists res p' w2,
    sync Scenario.service Scenario.plugin1 w = (Ok res, p', w2) /\
    sr_added res = Some 2%nat /\ sr_updated res = Some 0%nat /\
    lastSyncedTasks p' !! "B"
      = Some {| se_task := issueToTask Scenario.issueB;
                se_updatedAt := "2025-01-02T00:00:00.000Z" |} /\
    taskCache p' !! "id-1" = Some (issueToTask Scenario.issue1).
Proof.
  intros issues w.
  destruct (sync_effect Scenario.service Scenario.plugin1 w
              {| apiKey := "lin_api_key" |} issues
              (Scenario.logged (Scenario.CIssuesByLabel "proj-1" "ralph-tui") w))
    as [res [p' [w2 [Hrun [_ [_ [Hother Hfetched]]]]]]];
    [reflexivity | discriminate | reflexivity |].
  exists res, p', w2. split; [exact Hrun |].
  vm_compute in Hrun. injection Hrun as <- _ _.
  split; [reflexivity |]. split; [reflexivity |]. split.
  - apply (Hfetched ltac:(vm_compute; repeat constructor; simpl; intuition discriminate)
                    Scenario.issueB).
    simpl. tauto.
  - rewrite (proj1 (Hother "id-1" ltac:(intros issue [<- | [<- | []]]; discriminate))).
    reflexivity.
Defined.

Lemma sync_first_then_again_witness :
  let issues := [Scenario.issueA; Scenario.issueB; Scenario.issueC] in
  let w := Scenario.world issues [Scenario.todo; Scenario.doing] false false in
  exists res p' w2,
    sync Scenario.service Scenario.plugin0 w = (Ok res, p', w2) /\
    sr_added res = Some 3%nat /\ sr_updated res = Some 0%nat /\
    exists res2 w5,
      sync Scenario.service p' w2 = (Ok res2, p', w5) /\
      sr_added res2 = Some 0%nat /\ sr_updated res2 = Some 0%nat.
Proof.
  intros issues w.
  destruct (sync_first_then_again Scenario.service Scenario.plugin0 w
              {| apiKey := "lin_api_key" |} issues
              (Scenario.logged (Scenario.CIssuesByLabel "proj-1" "ralph-tui") w))
    as [res [p' [w2 [Hrun [Hfirst Hagain]]]]];
    [reflexivity | discriminate | reflexivity
    | vm_compute; repeat constructor; simpl; intuition discriminate |].
  exists res, p', w2. split; [exact Hrun |].
  destruct Hfirst as [Ha Hu]; [intros issue _; reflexivity |].
  split; [exact Ha |]. split; [exact Hu |].
  assert (Hw2 : w2 = Scenario.logged (Scenario.CIssuesByLabel "proj-1" "ralph-tui") w).
  { vm_compute in Hrun. injection Hrun as _ _ <-. reflexivity. }
  apply (Hagain w2 (Scenario.logged (Scenario.CIssuesByLabel "proj-1" "ralph-tui") w2)).
  rewrite Hw2. reflexivity.
Defined.

Lemma sync_then_no_conflict_witness :
  let issues := [Scenario.issueA; Scenario.issueB] in
  let w := Scenario.world issues [Scenario.todo; Scenario.doing] false false in
  exists res p' w2 w4,
    sync Scenario.service Scenario.plugin0 w = (Ok res, p', w2) /\
    detectConflict Scenario.service "B" p' w2 = (Ok None, p', w4).
Proof.
  intros issues w.
  destruct (sync_then_no_conflict Scenario.service Scenario.plugin0 w
              {| apiKey := "lin_api_key" |} issues
              (Scenario.logged (Scenario.CIssuesByLabel "proj-1" "ralph-tui") w)
              Scenario.issueB
              (Scenario.logged (Scenario.CIssuesByLabel "proj-1" "ralph-tui") w)
              Scenario.issueB
              (Scenario.logged (Scenario.CIssue "B")
                 (Scenario.logged (Scenario.CIssuesByLabel "proj-1" "ralph-tui") w)))
    as [res [p' [w2 [Hrun Hdet]]]];
    [reflexivity | discriminate | reflexivity
    | vm_compute; repeat constructor; simpl; intuition discriminate
    | simpl; tauto | reflexivity | reflexivity |].
  assert (Hw2 : w2 = Scenario.logged (Scenario.CIssuesByLabel "proj-1" "ralph-tui") w).
  { vm_compute in Hrun. injection Hrun as _ _ <-. reflexivity. }
  exists res, p', w2, (Scenario.logged (Scenario.CIssue "B") w2).
  split; [exact Hrun |]. rewrite Hw2. exact Hdet.
Defined.

(* ===================================================================== *)
(** ** Further properties: the life of a conflict                        *)
(* ===================================================================== *)

Section ConflictLife.

Context {W : Type}.
Variable env : Env W.

Implicit Types (p : Plugin) (w : W).

(** X15. Accepting the remote version settles a conflict: afterwards the
    cache serves the remote version for that id, and [detectConflict]
    reports nothing as long as the service returns the issue with the
    [updatedAt] that was accepted. *)
Theorem resolveConflict_remote_settles taskId p w conflict w' :
  detectConflict env taskId p w = (Ok (Some conflict), p, w') ->
  exists c pr,
    client p = Some c /\
    resolveConflict env taskId remote p w
      = (Ok (Some (cf_remoteVersion conflict)), pr, w') /\
    (forall w2, getTask env taskId pr w2
                = (Ok (Some (cf_remoteVersion conflict)), pr, w2)) /\
    (forall w2 remoteIssue w3,
       q_issue env c taskId w2 = (Ok remoteIssue, w3) ->
       i_updatedAt remoteIssue = cf_remoteUpdatedAt conflict ->
       detectConflict env taskId pr w2 = (Ok None, pr, w3)).
Proof.
  intros Hd.
  destruct (detectConflict_Some_inv env _ _ _ _ _ _ Hd) as [_ [c [_ [_ [Hc _]]]]].
  exists c, (acceptRemote taskId conflict p). split; [exact Hc |].
  split; [exact (resolveConflict_conflict env taskId remote p w c conflict w' Hc Hd) |].
  split.
  - intros w2. apply getTask_cached. simpl. apply lookup_insert_eq.
  - intros w2 remoteIssue w3 Hq Hts.
    erewrite detectConflict_fetched;
      [| exact Hc | simpl; apply lookup_insert_eq | exact Hq].
    simpl. rewrite bool_decide_eq_false_2 by (intros N; apply N; exact Hts).
    reflexivity.
Qed.

(** X16. When [detectConflict] finds nothing, [resolveConflict] is a plain
    [getTask] of the id, whatever resolution was asked for; without a client
    it returns undefined and does nothing. *)
Theorem resolveConflict_without_conflict taskId resolution p w :
  (client p = None -> resolveConflict env taskId resolution p w = (Ok None, p, w)) /\
  (forall c w', client p = Some c ->
     detectConflict env taskId p w = (Ok None, p, w') ->
     resolveConflict env taskId resolution p w = getTask env taskId p w').
Proof.
  split.
  - intros Hc. unfold resolveConflict, bind, this. rewrite Hc. reflexivity.
  - intros c w' Hc Hd. unfold resolveConflict. unfold bind at 1. unfold this.
    rewrite Hc. unfold bind at 1. rewrite Hd. reflexivity.
Qed.

(** X17. Keeping the local version sends one update carrying the workflow
    state found for the local status and the local description; when the
    service accepts it, the acknowledged issue becomes the cache entry and
    the baseline of the id, so that [detectConflict] reports nothing while
    the service returns that [updatedAt].  When the workflow has no state for
    the local status, nothing is sent or written and the remote version is
    returned. *)
Theorem resolveConflict_local_rebaselines taskId p w conflict w' states p1 w1 :
  detectConflict env taskId p w = (Ok (Some conflict), p, w') ->
  getTeamStates env p w' = (Ok states, p1, w1) ->
  let stateId :=
    s_id <$> stateOfType states
               (mapStatusToStateType (t_status (cf_localVersion conflict))) in
  exists c, client p = Some c /\
  (truthy_str stateId = false ->
   resolveConflict env taskId local p w
     = (Ok (Some (cf_remoteVersion conflict)), p1, w1)) /\
  (forall updated w2,
     truthy_str stateId = true ->
     q_issueUpdate env c taskId
       {| in_stateId := stateId; in_assigneeId := None; in_labelIds := None;
          in_description := t_description (cf_localVersion conflict) |} w1
       = (Ok (true, updated), w2) ->
     exists pl,
       resolveConflict env taskId local p w = (Ok (Some (issueToTask updated)), pl, w2) /\
       taskCache pl = <[taskId := issueToTask updated]> (taskCache p) /\
       lastSyncedTasks pl
         = <[taskId := {| se_task := issueToTask updated;
                          se_updatedAt := i_updatedAt updated |}]> (lastSyncedTasks p) /\
       (forall w3 remoteIssue w4,
          q_issue env c taskId w3 = (Ok remoteIssue, w4) ->
          i_updatedAt remoteIssue = i_updatedAt updated ->
          detectConflict env taskId pl w3 = (Ok None, pl, w4))).
Proof.
  intros Hd Hts stateId.
  destruct (resolveConflict_local_run env taskId p w conflict w' Hd) as [c [Hc Hrun]].
  destruct (getTeamStates_frame env _ _ _ _ _ Hts) as [Hc1 [_ [Hcache Hbase]]].
  exists c. split; [exact Hc |]. rewrite Hts in Hrun. cbv zeta in Hrun.
  fold stateId in Hrun. split.
  - intros Hf. rewrite Hrun, Hf. reflexivity.
  - intros updated w2 Ht Hu. rewrite Ht, Hu in Hrun.
    exists (claimed taskId updated p1). split; [exact Hrun |].
    split; [simpl; rewrite Hcache; reflexivity |].
    split; [simpl; rewrite Hbase; reflexivity |].
    intros w3 remoteIssue w4 Hq Hsame.
    erewrite detectConflict_fetched;
      [| simpl; rewrite Hc1; exact Hc | simpl; apply lookup_insert_eq | exact Hq].
    simpl. rewrite bool_decide_eq_false_2 by (intros N; apply N; exact Hsame).
    reflexivity.
Qed.

End ConflictLife.

Lemma resolveConflict_remote_settles_witness :
  let w := Scenario.world [Scenario.issue1_moved]
                          [Scenario.todo; Scenario.doing; Scenario.finished]
                          false false in
  exists pr w',
    resolveConflict Scenario.service "id-1" remote Scenario.plugin1 w
      = (Ok (Some (issueToTask Scenario.issue1_moved)), pr, w') /\
    detectConflict Scenario.service "id-1" pr w'
      = (Ok None, pr, Scenario.logged (Scenario.CIssue "id-1") w').
Proof.
  intros w.
  destruct (resolveConflict_remote_settles Scenario.service "id-1" Scenario.plugin1 w _ _
              scenario_conflict_detected) as [c [pr [Hc [Hrun [_ Hsettled]]]]].
  exists pr, (Scenario.logged (Scenario.CIssue "id-1") w).
  split; [exact Hrun |].
  injection Hc as <-.
  apply (Hsettled _ Scenario.issue1_moved); reflexivity.
Defined.

Lemma resolveConflict_without_conflict_witness :
  let w := Scenario.world [Scenario.issue1] [Scenario.todo] false false in
  resolveConflict Scenario.service "id-1" local Scenario.plugin1 w
    = (Ok (Some (issueToTask Scenario.issue1)), Scenario.plugin1,
       Scenario.logged (Scenario.CIssue "id-1") w).
Proof.
  intros w.
  rewrite (proj2 (resolveConflict_without_conflict Scenario.service "id-1" local
                    Scenario.plugin1 w)
             {| apiKey := "lin_api_key" |} (Scenario.logged (Scenario.CIssue "id-1") w)
             eq_refl eq_refl).
  reflexivity.
Defined.

Lemma resolveConflict_local_rebaselines_witness :
  let states := [Scenario.todo; Scenario.doing; Scenario.finished] in
  let w := Scenario.world [Scenario.issue1_moved] states false false in
  exists task pl w2,
    resolveConflict Scenario.service "id-1" local Scenario.plugin1 w
      = (Ok (Some task), pl, w2) /\
    t_status task = open /\
    (se_task <$> lastSyncedTasks pl !! "id-1") = Some task /\
    Scenario.w_log w2
      = [Scenario.CIssueUpdate "id-1"
           {| in_stateId := Some "st-todo"; in_assigneeId := None;
              in_labelIds := None; in_description := None |};
         Scenario.CTeam "team-1"; Scenario.CIssue "id-1"].
Proof.
  intros states w.
  destruct (resolveConflict_local_rebaselines Scenario.service "id-1" Scenario.plugin1 w
              _ _ states
              (with_stateCache {[ "team-1" := states ]} Scenario.plugin1)
              (Scenario.logged (Scenario.CTeam "team-1")
                 (Scenario.logged (Scenario.CIssue "id-1") w))
              scenario_conflict_detected eq_refl)
    as [c [Hc [_ Hsent]]].
  injection Hc as <-.
  edestruct Hsent as [pl [Hrun [_ [Hbase _]]]]; [reflexivity | reflexivity |].
  eexists _, pl, _. split; [exact Hrun |].
  split; [reflexivity |]. split; [rewrite Hbase; reflexivity | reflexivity].
Defined.

(* ===================================================================== *)
(** ** Further properties: workflow states, status updates and claims    *)
(* ===================================================================== *)

Section WorkflowFacts.

Context {W : Type}.
Variable env : Env W.

Implicit Types (p : Plugin) (w : W).

Lemma getTeamStates_memo_hit p w c states :
  client p = Some c -> teamId p <> "" ->
  stateCache p !! teamId p = Some states ->
  getTeamStates env p w = (Ok states, p, w).
Proof.
  intros Hc Ht Hm. apply truthy_str_Some in Ht.
  unfold getTeamStates, bind, this. rewrite Hc, Ht, Hm. reflexivity.
Qed.

Lemma getTeamStates_unconfigured p w :
  client p = None \/ teamId p = "" -> getTeamStates env p w = (Ok [], p, w).
Proof.
  intros H. unfold getTeamStates, bind, this.
  destruct (client p); [| reflexivity].
  destruct H as [H | H]; [discriminate |].
  apply truthy_str_false in H. rewrite H. reflexivity.
Qed.

(** X18. The workflow states of the team are fetched once: after a
    successful lookup every later lookup, and every [findStateByType],
    answers from the memo without a request and without changing the plugin,
    whatever the service would answer by then.  A failed lookup throws and
    memoizes nothing. *)
Theorem getTeamStates_memoized p w c :
  client p = Some c -> teamId p <> "" -> stateCache p !! teamId p = None ->
  (forall team w1,
     q_team env c (teamId p) w = (Ok team, w1) ->
     exists p1,
       getTeamStates env p w = (Ok (tm_states team), p1, w1) /\
       (forall w2, getTeamStates env p1 w2 = (Ok (tm_states team), p1, w2)) /\
       (forall ty w2,
          findStateByType env ty p1 w2
            = (Ok (s_id <$> stateOfType (tm_states team) ty), p1, w2))) /\
  (forall e w1,
     q_team env c (teamId p) w = (Throw e, w1) ->
     getTeamStates env p w = (Throw e, p, w1)).
Proof.
  intros Hc Ht Hm. pose proof Ht as Ht'. apply truthy_str_Some in Ht'. split.
  - intros team w1 Hq.
    exists (with_stateCache (<[teamId p := tm_states team]> (stateCache p)) p).
    assert (Hhit : forall w2,
               getTeamStates env
                 (with_stateCache (<[teamId p := tm_states team]> (stateCache p)) p) w2
               = (Ok (tm_states team),
                  with_stateCache (<[teamId p := tm_states team]> (stateCache p)) p, w2)).
    { intros w2. apply (getTeamStates_memo_hit _ w2 c); [exact Hc | exact Ht |].
      simpl. apply lookup_insert_eq. }
    split; [| split; [exact Hhit |]].
    + cbv [getTeamStates bind this getStates getTeam request update ret].
      rewrite Hc, Ht', Hm. cbv beta iota delta [negb]. rewrite Hq. reflexivity.
    + intros ty w2. apply findStateByType_found. apply Hhit.
  - intros e w1 Hq.
    cbv [getTeamStates bind this getStates getTeam request update ret].
    rewrite Hc, Ht', Hm. cbv beta iota delta [negb]. rewrite Hq. reflexivity.
Qed.

(** X19. Without a configured team id no workflow state can be resolved, and
    none is asked for: [completeTask] reports "Could not find completed
    state" and [updateTaskStatus] returns undefined, both without any
    request and without changing the plugin. *)
Theorem no_team_no_status_change id reason status p w c :
  client p = Some c -> teamId p = "" ->
  completeTask env id reason p w = (Ok noCompletedState, p, w) /\
  updateTaskStatus env id status p w = (Ok None, p, w).
Proof.
  intros Hc Ht.
  pose proof (getTeamStates_unconfigured p w (or_intror Ht)) as Hts.
  split.
  - rewrite (completeTask_run env id reason p w c Hc), Hts. reflexivity.
  - rewrite (updateTaskStatus_run env id status p w c Hc), Hts. reflexivity.
Qed.

(** X20. [updateTaskStatus] never throws and never writes the baseline;
    when it returns a task, that task is the new cache entry of the id, and
    when it returns undefined the cache is as before.  Asking for blocked is
    the same as asking for in_progress. *)
Theorem updateTaskStatus_frame id status p w :
  (exists r p' w',
     updateTaskStatus env id status p w = (Ok r, p', w') /\
     lastSyncedTasks p' = lastSyncedTasks p /\
     match r with
     | Some task => taskCache p' = <[id := task]> (taskCache p)
     | None => taskCache p' = taskCache p
     end) /\
  updateTaskStatus env id blocked p w = updateTaskStatus env id in_progress p w.
Proof.
  split; [| reflexivity].
  destruct (client p) as [c |] eqn:Hc.
  2:{ exists None, p, w. unfold updateTaskStatus, bind, this. rewrite Hc.
      split; [reflexivity |]. split; reflexivity. }
  rewrite (updateTaskStatus_run env id status p w c Hc).
  destruct (getTeamStates env p w) as [[[states | e] p1] w1] eqn:Hts;
    destruct (getTeamStates_frame env _ _ _ _ _ Hts) as [_ [_ [Hcache Hbase]]].
  2:{ eexists _, _, _. split; [reflexivity |]. split; assumption. }
  cbv zeta. destruct (negb _).
  { eexists _, _, _. split; [reflexivity |]. split; assumption. }
  destruct (q_issueUpdate env c id _ w1) as [[[[|] issue] | e] w2];
    eexists _, _, _; (split; [reflexivity |]); (split; [exact Hbase |]);
    simpl; rewrite ?Hcache; reflexivity.
Qed.

(** X21. [claimTask] never throws.  When it returns a task, that task is the
    new cache entry and the new baseline of the id; when it returns
    undefined, cache and baseline are as before.  Without a client or
    without a user id it returns undefined without any request. *)
Theorem claimTask_frame id p w :
  (exists r p' w',
     claimTask env id p w = (Ok r, p', w') /\
     match r with
     | Some task =>
         taskCache p' = <[id := task]> (taskCache p) /\
         exists updatedAt,
           lastSyncedTasks p'
             = <[id := {| se_task := task; se_updatedAt := updatedAt |}]>
                 (lastSyncedTasks p)
     | None =>
         taskCache p' = taskCache p /\ lastSyncedTasks p' = lastSyncedTasks p
     end) /\
  (client p = None \/ userId p = "" -> claimTask env id p w = (Ok None, p, w)).
Proof.
  assert (Hoff : client p = None \/ userId p = "" ->
                 claimTask env id p w = (Ok None, p, w)).
  { intros H. unfold claimTask, bind, this. destruct (client p); [| reflexivity].
    destruct H as [H | H]; [discriminate |].
    apply truthy_str_false in H. rewrite H. reflexivity. }
  split; [| exact Hoff].
  destruct (client p) as [c |] eqn:Hc.
  2:{ exists None, p, w. rewrite Hoff by (left; reflexivity).
      split; [reflexivity |]. split; reflexivity. }
  destruct (String.eqb_spec (userId p) "") as [Hu | Hu].
  { exists None, p, w. rewrite Hoff by (right; exact Hu).
    split; [reflexivity |]. split; reflexivity. }
  rewrite (claimTask_run env id p w c Hc Hu).
  destruct (getTeamStates env p w) as [[[states | e] p1] w1] eqn:Hts;
    destruct (getTeamStates_frame env _ _ _ _ _ Hts) as [_ [_ [Hcache Hbase]]].
  2:{ eexists _, _, _. split; [reflexivity |]. split; assumption. }
  cbv zeta.
  destruct (q_issueUpdate env c id _ w1) as [[[[|] issue] | e] w2];
    eexists _, _, _; (split; [reflexivity |]); simpl; rewrite ?Hcache, ?Hbase.
  - split; [reflexivity |]. eexists. reflexivity.
  - split; reflexivity.
  - split; reflexivity.
Qed.

End WorkflowFacts.

Lemma getTeamStates_memoized_witness :
  let states := [Scenario.todo; Scenario.doing] in
  let w := Scenario.world [] states false false in
  let down := Scenario.world [] [] false true in
  exists p1 w1,
    getTeamStates Scenario.service Scenario.plugin0 w = (Ok states, p1, w1) /\
    findStateByType Scenario.service "started" p1 down = (Ok (Some "st-doing"), p1, down).
Proof.
  intros states w down.
  destruct (proj1 (getTeamStates_memoized Scenario.service Scenario.plugin0 w
                     {| apiKey := "lin_api_key" |} eq_refl ltac:(discriminate) eq_refl)
              {| tm_id := "team-1"; tm_name := "Team"; tm_key := "PIC"; tm_states := states |}
              (Scenario.logged (Scenario.CTeam "team-1") w) eq_refl)
    as [p1 [Hrun [_ Hfind]]].
  exists p1, (Scenario.logged (Scenario.CTeam "team-1") w).
  split; [exact Hrun | exact (Hfind "started" down)].
Defined.

Lemma no_team_no_status_change_witness :
  let p := with_connection {| apiKey := "lin_api_key" |} "proj-1" "" "ralph-tui"
                           Scenario.plugin0 in
  let w := Scenario.world [Scenario.issue1] [Scenario.finished] false false in
  completeTask Scenario.service "id-1" None p w = (Ok noCompletedState, p, w).
Proof.
  intros p w.
  exact (proj1 (no_team_no_status_change Scenario.service "id-1" None open p w
                  {| apiKey := "lin_api_key" |} eq_refl eq_refl)).
Defined.

(* ===================================================================== *)
(** ** Further properties: disposal, completion check, read-only calls   *)
(* ===================================================================== *)

Section LifecycleFacts.

Context {W : Type}.
Variable env : Env W.

Implicit Types (p : Plugin) (w : W).

(** X22. After [dispose] the plugin is inert: every query returns its empty
    value and every mutation its failure value, with no request to the
    service and no change of the plugin, including for ids that were cached
    before. *)
Theorem dispose_disconnects p w :
  dispose p w = (Ok tt, disposed p, w) /\
  forall (w2 : W) id filter status reason resolution,
    let d := disposed p in
    getTasks env filter d w2 = (Ok [], d, w2) /\
    getTask env id d w2 = (Ok None, d, w2) /\
    getNextTask env filter d w2 = (Ok None, d, w2) /\
    claimTask env id d w2 = (Ok None, d, w2) /\
    completeTask env id reason d w2 = (Ok clientNotReady, d, w2) /\
    updateTaskStatus env id status d w2 = (Ok None, d, w2) /\
    detectConflict env id d w2 = (Ok None, d, w2) /\
    resolveConflict env id resolution d w2 = (Ok None, d, w2) /\
    getEpics env d w2 = (Ok [], d, w2) /\
    isComplete env filter d w2 = (Ok true, d, w2) /\
    isTaskReady env id d w2 = (Ok false, d, w2) /\
    (exists res, sync env d w2 = (Ok res, d, snd (now env w2)) /\
                 sr_success res = false).
Proof.
  split; [reflexivity |].
  intros w2 id filter status reason resolution d.
  repeat (split; [reflexivity |]).
  unfold sync, bind, this, clock. simpl. destruct (now env w2) as [s w3].
  eexists. split; reflexivity.
Qed.

(** X23. [isComplete] is true exactly when every fetched task that passes
    the filter is completed or cancelled; in particular it is true when
    nothing could be fetched, because the plugin is not connected or the
    fetch failed. *)
Theorem isComplete_spec filter p w :
  (client p = None \/ projectId p = "" -> isComplete env filter p w = (Ok true, p, w)) /\
  (forall c e w',
     client p = Some c -> projectId p <> "" ->
     q_issuesByLabel env c (projectId p) (labelName p) w = (Throw e, w') ->
     isComplete env filter p w = (Ok true, p, w')) /\
  (forall c issues w',
     client p = Some c -> projectId p <> "" ->
     q_issuesByLabel env c (projectId p) (labelName p) w = (Ok issues, w') ->
     exists b p',
       isComplete env filter p w = (Ok b, p', w') /\
       (b = true <->
        forall t, In t (filterTasks (map issueToTask issues) filter) ->
                  t_status t = completed \/ t_status t = cancelled)).
Proof.
  split; [| split].
  - intros H. unfold isComplete.
    rewrite (bind_ok _ _ _ _ _ _ _ (getTasks_not_ready env filter p w H)). reflexivity.
  - intros c e w' Hc Hp Hq. unfold isComplete.
    rewrite (bind_ok _ _ _ _ _ _ _ (getTasks_failed env filter p w c e w' Hc Hp Hq)).
    reflexivity.
  - intros c issues w' Hc Hp Hq. unfold isComplete.
    rewrite (bind_ok _ _ _ _ _ _ _ (getTasks_fetched env filter p w c issues w' Hc Hp Hq)).
    eexists _, _. split; [reflexivity |].
    rewrite List.forallb_forall. split; intros H t Ht.
    + apply isTerminal_true. exact (H t Ht).
    + apply isTerminal_true. exact (H t Ht).
Qed.

(** X24. [detectConflict] and [getEpics] are read-only: on every plugin and
    every behaviour of the service they return without throwing and leave
    the plugin exactly as it was; in particular [getEpics] caches nothing. *)
Theorem read_only_queries id p w :
  (exists r w', detectConflict env id p w = (Ok r, p, w')) /\
  (exists r w', getEpics env p w = (Ok r, p, w')).
Proof.
  split; [apply detectConflict_total |].
  unfold getEpics, bind, this. destruct (client p) as [c |]; [| eexists _, _; reflexivity].
  destruct (negb _); [eexists _, _; reflexivity |].
  unfold try_catch, bind, client_getEpics, request.
  destruct (q_epics env c (projectId p) w) as [[epics | e] w']; eexists _, _; reflexivity.
Qed.

End LifecycleFacts.

Lemma isComplete_spec_witness :
  let w := Scenario.world [Scenario.issueA; Scenario.issueB]
                          [Scenario.todo; Scenario.doing] false false in
  let offline := with_connection {| apiKey := "lin_api_key" |} "" "team-1" "ralph-tui"
                                 Scenario.plugin0 in
  isComplete Scenario.service None offline w = (Ok true, offline, w) /\
  exists p' w', isComplete Scenario.service None Scenario.plugin0 w = (Ok false, p', w').
Proof.
  intros w offline. split.
  - apply (proj1 (isComplete_spec Scenario.service None offline w)).
    right. reflexivity.
  - eexists _, _. vm_compute. reflexivity.
Defined.

(* ===================================================================== *)
(** ** Further properties: set-up, health check and epic context         *)
(* ===================================================================== *)

Section SetupFacts.

Context {W : Type}.
Variable env : Env W.
Variable processEnv : gmap string string.

Implicit Types (p : Plugin) (w : W) (config : gmap string string).

Lemma orElse_first (a b : option string) (s : string) :
  a = Some s -> s <> "" -> orElse a b = Some s.
Proof.
  intros -> Hs. unfold orElse. apply truthy_str_Some in Hs. rewrite Hs. reflexivity.
Qed.

Lemma orString_nonempty (a : option string) (fallback : string) :
  fallback <> "" -> orString a fallback <> "".
Proof.
  intros Hf. unfold orString. destruct (truthy_str a) eqn:E; [| exact Hf].
  destruct a as [s |]; [| discriminate]. apply truthy_str_Some in E. exact E.
Qed.

(** X25. [initialize] never throws and never touches cache or baseline.
    With no API key in the config or the environment it only clears the
    ready flag, sending nothing.  With a key (the config's, when it has one,
    wins over the environment's) it installs a client with that key and a
    non-empty label name, then asks for the viewer: on success the plugin is
    ready with the viewer's id as user id; on failure the ready flag is
    cleared and the user id is as before, but the client stays installed. *)
Theorem initialize_spec config p w :
  let apiKey := orElse (config !! "apiKey") (processEnv !! "LINEAR_API_KEY") in
  (truthy_str apiKey = false ->
   initialize env processEnv config p w = (Ok tt, with_ready false p, w)) /\
  (forall key, config !! "apiKey" = Some key -> key <> "" -> apiKey = Some key) /\
  (forall key,
     apiKey = Some key -> key <> "" ->
     exists p' w',
       initialize env processEnv config p w = (Ok tt, p', w') /\
       client p' = Some {| apiKey := key |} /\
       labelName p' <> "" /\
       taskCache p' = taskCache p /\ lastSyncedTasks p' = lastSyncedTasks p /\
       match q_viewer env {| apiKey := key |} w with
       | (Ok viewer, w1) => ready p' = true /\ userId p' = u_id viewer /\ w' = w1
       | (Throw _, w1) => ready p' = false /\ userId p' = userId p /\ w' = w1
       end).
Proof.
  intros apiKey. split; [| split].
  - intros Hf. unfold initialize. fold apiKey. rewrite Hf. reflexivity.
  - intros key Hk Hne. exact (orElse_first _ _ _ Hk Hne).
  - intros key Hk Hne. unfold initialize. fold apiKey. rewrite Hk.
    apply truthy_str_Some in Hne. rewrite Hne.
    change (negb true) with false. cbv beta iota.
    change (default "" (Some key)) with key.
    cbv [bind update try_catch getViewer request].
    destruct (q_viewer env {| apiKey := key |} w) as [[viewer | e] w1];
      eexists _, _; (split; [reflexivity |]); simpl;
      (split; [reflexivity |]);
      (split; [apply orString_nonempty; discriminate |]);
      repeat (split; [reflexivity |]); reflexivity.
Qed.

(** X26. [isReady] asks the service each time and ignores the stored ready
    flag: without a client it is false with no request; with a client it is
    true exactly when the viewer query succeeds.  It never throws and never
    changes the plugin. *)
Theorem isReady_spec p w :
  (client p = None -> isReady env p w = (Ok false, p, w)) /\
  (forall c, client p = Some c ->
     isReady env p w =
       match q_viewer env c w with
       | (Ok _, w') => (Ok true, p, w')
       | (Throw _, w') => (Ok false, p, w')
       end) /\
  (forall b, isReady env (with_ready b p) w
             = (fst (fst (isReady env p w)), with_ready b p, snd (isReady env p w))).
Proof.
  assert (Hrun : forall q c, client q = Some c ->
            isReady env q w =
              match q_viewer env c w with
              | (Ok _, w') => (Ok true, q, w')
              | (Throw _, w') => (Ok false, q, w')
              end).
  { intros q c Hc. unfold isReady, bind, this. rewrite Hc.
    cbv [try_catch bind getViewer request ret].
    destruct (q_viewer env c w) as [[v | e] w']; reflexivity. }
  assert (Hoff : forall q, client q = None -> isReady env q w = (Ok false, q, w)).
  { intros q Hc. unfold isReady, bind, this. rewrite Hc. reflexivity. }
  split; [apply Hoff |]. split; [apply Hrun |].
  intros b. destruct (client p) as [c |] eqn:Hc.
  - rewrite (Hrun (with_ready b p) c Hc), (Hrun p c Hc).
    destruct (q_viewer env c w) as [[v | e] w']; reflexivity.
  - rewrite (Hoff (with_ready b p) Hc), (Hoff p Hc). reflexivity.
Qed.

(** X27. [validateSetup] never changes the plugin and never throws.  With no
    API key in the answers or the environment it returns the "key is
    required" message without any request; with a key it returns null
    exactly when the viewer query succeeds with that key, and otherwise a
    message that carries the failure's own text. *)
Theorem validateSetup_spec (answers : gmap string string) p w :
  let apiKey := orElse (answers !! "apiKey") (processEnv !! "LINEAR_API_KEY") in
  (truthy_str apiKey = false ->
   validateSetup env processEnv answers p w
     = (Ok (Some "Linear API key is required (either in config or LINEAR_API_KEY environment variable)"),
        p, w)) /\
  (forall key, apiKey = Some key -> key <> "" ->
     validateSetup env processEnv answers p w =
       match q_viewer env {| apiKey := key |} w with
       | (Ok _, w') => (Ok None, p, w')
       | (Throw e, w') => (Ok (Some ("Failed to connect to Linear: " +:+ e)), p, w')
       end).
Proof.
  intros apiKey. split.
  - intros Hf. unfold validateSetup. fold apiKey. rewrite Hf. reflexivity.
  - intros key Hk Hne. unfold validateSetup. fold apiKey. rewrite Hk.
    apply truthy_str_Some in Hne. rewrite Hne.
    change (negb true) with false. cbv beta iota.
    change (default "" (Some key)) with key.
    cbv [try_catch bind getViewer request ret].
    destruct (q_viewer env {| apiKey := key |} w) as [[v | e] w']; reflexivity.
Qed.

(** X28. [getPrdContext] never throws.  Without a client or without an epic
    id it is null with no request, and it is null when the epic cannot be
    fetched.  Once the epic is fetched a context is always returned, named
    after the epic, whose completed count never exceeds its total; when the
    tasks cannot be fetched both counts are zero. *)
Theorem getPrdContext_spec p w :
  (client p = None \/ epicId p = "" -> getPrdContext env p w = (Ok None, p, w)) /\
  (forall c e w1, client p = Some c -> epicId p <> "" ->
     q_issue env c (epicId p) w = (Throw e, w1) ->
     getPrdContext env p w = (Ok None, p, w1)) /\
  (forall c epic w1, client p = Some c -> epicId p <> "" ->
     q_issue env c (epicId p) w = (Ok epic, w1) ->
     exists ctx p' w',
       getPrdContext env p w = (Ok (Some ctx), p', w') /\
       prd_name ctx = i_title epic /\
       prd_description ctx = i_description epic /\
       (prd_completedCount ctx <= prd_totalCount ctx)%nat /\
       (forall e w2,
          q_issuesByLabel env c (projectId p) (labelName p) w1 = (Throw e, w2) ->
          prd_totalCount ctx = 0%nat /\ prd_completedCount ctx = 0%nat)).
Proof.
  split; [| split].
  - intros H. unfold getPrdContext, bind, this. destruct (client p); [| reflexivity].
    destruct H as [H | H]; [discriminate |].
    apply truthy_str_false in H. rewrite H. reflexivity.
  - intros c e w1 Hc He Hq. apply truthy_str_Some in He.
    unfold getPrdContext. unfold bind at 1. unfold this. rewrite Hc, He.
    change (negb true) with false. cbv beta iota.
    unfold try_catch. unfold bind at 1. unfold getIssue, request. rewrite Hq. reflexivity.
  - intros c epic w1 Hc He Hq. pose proof He as He'. apply truthy_str_Some in He'.
    unfold getPrdContext. unfold bind at 1. unfold this. rewrite Hc, He'.
    change (negb true) with false. cbv beta iota.
    unfold try_catch. unfold bind at 1. unfold getIssue, request. rewrite Hq.
    unfold bind at 1. unfold this. unfold bind at 1.
    destruct (getTasks env (Some (parentFilter (epicId p))) p w1)
      as [[[tasks | e] p2] w2] eqn:Hg.
    + eexists _, _, _. split; [reflexivity |]. simpl.
      split; [reflexivity |]. split; [reflexivity |].
      split; [apply filter_length_le |].
      intros e w3 Hf.
      destruct (String.eqb_spec (projectId p) "") as [Hp | Hp].
      * rewrite (getTasks_not_ready env _ p w1 (or_intror Hp)) in Hg.
        injection Hg as <- _ _. split; reflexivity.
      * rewrite (getTasks_failed env _ p w1 c e w3 Hc Hp Hf) in Hg.
        injection Hg as <- _ _. split; reflexivity.
    + exfalso.
      destruct (getTasks_never_throws env (Some (parentFilter (epicId p))) p w1)
        as [a [p3 [w3 E]]].
      rewrite E in Hg. discriminate.
Qed.

End SetupFacts.

Lemma initialize_spec_witness :
  let config := {[ "apiKey" := "lin_api_key"; "projectId" := "proj-1" ]} : gmap string string in
  let penv := {[ "LINEAR_API_KEY" := "other_key"; "LINEAR_TEAM_ID" := "team-1" ]}
              : gmap string string in
  let w := Scenario.world [] [] false false in
  exists p' w',
    initialize Scenario.service penv config newPlugin w = (Ok tt, p', w') /\
    client p' = Some {| apiKey := "lin_api_key" |} /\
    ready p' = true /\ userId p' = "user-1" /\
    (projectId p', teamId p', labelName p') = ("proj-1", "team-1", "ralph-tui").
Proof.
  intros config penv w.
  destruct (proj2 (proj2 (initialize_spec Scenario.service penv config newPlugin w))
              "lin_api_key" eq_refl ltac:(discriminate))
    as [p' [w' [Hrun [Hc [_ [_ [_ Hv]]]]]]].
  simpl in Hv. destruct Hv as [Hr [Hu _]].
  exists p', w'. split; [exact Hrun |]. split; [exact Hc |].
  split; [exact Hr |]. split; [exact Hu |].
  vm_compute in Hrun. injection Hrun as <- _. reflexivity.
Defined.

Lemma validateSetup_spec_witness :
  let w := Scenario.world [] [] false false in
  let none : gmap string string := ∅ in
  let answers : gmap string string := {[ "apiKey" := "lin_api_key" ]} in
  validateSetup Scenario.service none none newPlugin w
    = (Ok (Some "Linear API key is required (either in config or LINEAR_API_KEY environment variable)"),
       newPlugin, w) /\
  validateSetup Scenario.service none answers newPlugin w
    = (Ok None, newPlugin, Scenario.logged Scenario.CViewer w).
Proof.
  intros w none answers. split.
  - exact (proj1 (validateSetup_spec Scenario.service none none newPlugin w) eq_refl).
  - rewrite (proj2 (validateSetup_spec Scenario.service none answers newPlugin w)
               "lin_api_key" eq_refl ltac:(discriminate)).
    reflexivity.
Defined.

Lemma getPrdContext_spec_witness :
  let epic := Scenario.mkIssue "id-1" "PIC-1" "Parser epic" 2 Scenario.doing
                               "2025-01-02T00:00:00.000Z" in
  let w := Scenario.world [epic] [Scenario.doing] false false in
  let p := with_epicId "id-1" Scenario.plugin0 in
  exists ctx p' w',
    getPrdContext Scenario.service p w = (Ok (Some ctx), p', w') /\
    prd_name ctx = "Parser epic" /\
    (prd_completedCount ctx <= prd_totalCount ctx)%nat.
Proof.
  intros epic w p.
  destruct (proj2 (proj2 (getPrdContext_spec Scenario.service p w))
              {| apiKey := "lin_api_key" |} epic
              (Scenario.logged (Scenario.CIssue "id-1") w)
              eq_refl ltac:(discriminate) eq_refl)
    as [ctx [p' [w' [Hrun [Hname [_ [Hle _]]]]]]].
  exists ctx, p', w'. split; [exact Hrun |]. split; [exact Hname | exact Hle].
Defined.

(* ===================================================================== *)
(** ** Further properties: completing with a note, claiming               *)
(* ===================================================================== *)

Section CompletionFacts.

Context {W : Type}.
Variable env : Env W.

Implicit Types (p : Plugin) (w : W).

(** X29. When a reason is given, [completeTask] posts it as the comment
    "Task completed by ralph-tui: <reason>" after the state update was
    accepted.  If posting the comment fails, the method reports failure with
    the comment's error and does not store the updated task in the cache,
    although the issue has already been moved on the service; if it
    succeeds, the updated task is stored and the result is a success. *)
Theorem completeTask_with_reason id reason p w c states p1 w1 updatedIssue w2 :
  client p = Some c -> reason <> "" ->
  getTeamStates env p w = (Ok states, p1, w1) ->
  truthy_str (s_id <$> stateOfType states "completed") = true ->
  q_issueUpdate env c id (stateInput (s_id <$> stateOfType states "completed")) w1
    = (Ok (true, updatedIssue), w2) ->
  (forall e w3,
     q_commentCreate env c id ("Task completed by ralph-tui: " +:+ reason) w2
       = (Throw e, w3) ->
     completeTask env id (Some reason) p w = (Ok (completionFailed id e), p1, w3) /\
     taskCache p1 = taskCache p) /\
  (forall ok w3,
     q_commentCreate env c id ("Task completed by ralph-tui: " +:+ reason) w2
       = (Ok ok, w3) ->
     exists p',
       completeTask env id (Some reason) p w = (Ok (completionDone updatedIssue), p', w3) /\
       taskCache p' = <[id := issueToTask updatedIssue]> (taskCache p)).
Proof.
  intros Hc Hr Hts Hfound Hu.
  destruct (getTeamStates_frame env _ _ _ _ _ Hts) as [_ [_ [Hcache _]]].
  apply truthy_str_Some in Hr.
  split.
  - intros e w3 Hcom. split; [| exact Hcache].
    rewrite (completeTask_run env id (Some reason) p w c Hc), Hts. cbv zeta.
    rewrite Hfound. change (negb true) with false. cbv iota.
    rewrite Hu, Hr. simpl default. rewrite Hcom. reflexivity.
  - intros ok w3 Hcom. eexists. split.
    + rewrite (completeTask_run env id (Some reason) p w c Hc), Hts. cbv zeta.
      rewrite Hfound. change (negb true) with false. cbv iota.
      rewrite Hu, Hr. simpl default. rewrite Hcom. reflexivity.
    + simpl. rewrite Hcache. reflexivity.
Qed.

(** X30. A successful [claimTask] sends a single update carrying the user id
    as assignee and the id of the first workflow state of type started, and
    leaves the plugin in sync with what the service acknowledged:
    [detectConflict] on the claimed id reports nothing while the service
    returns the issue with the acknowledged [updatedAt]. *)
Theorem claimTask_then_no_conflict id p w c states p1 w1 started updatedIssue w2 :
  client p = Some c -> userId p <> "" ->
  getTeamStates env p w = (Ok states, p1, w1) ->
  stateOfType states "started" = Some started ->
  q_issueUpdate env c id (claimInput (Some (s_id started)) (userId p)) w1
    = (Ok (true, updatedIssue), w2) ->
  exists p',
    claimTask env id p w = (Ok (Some (issueToTask updatedIssue)), p', w2) /\
    (forall w3, getTask env id p' w3 = (Ok (Some (issueToTask updatedIssue)), p', w3)) /\
    (forall w3 remoteIssue w4,
       q_issue env c id w3 = (Ok remoteIssue, w4) ->
       i_updatedAt remoteIssue = i_updatedAt updatedIssue ->
       detectConflict env id p' w3 = (Ok None, p', w4)).
Proof.
  intros Hc Hu Hts Hst Hq.
  destruct (getTeamStates_frame env _ _ _ _ _ Hts) as [Hc1 _].
  exists (claimed id updatedIssue p1). split; [| split].
  - rewrite (claimTask_run env id p w c Hc Hu), Hts. cbv zeta.
    rewrite Hst. simpl fmap. rewrite Hq. reflexivity.
  - intros w3. apply getTask_cached. simpl. apply lookup_insert_eq.
  - intros w3 remoteIssue w4 Hq2 Hsame.
    erewrite detectConflict_fetched;
      [| simpl; rewrite Hc1; exact Hc | simpl; apply lookup_insert_eq | exact Hq2].
    simpl. rewrite bool_decide_eq_false_2 by (intros N; apply N; exact Hsame).
    reflexivity.
Qed.

End CompletionFacts.

Lemma completeTask_with_reason_witness :
  let states := [Scenario.todo; Scenario.finished] in
  let w := Scenario.world [Scenario.issue1] states false false in
  exists p' w3,
    completeTask Scenario.service "id-1" (Some "tests pass") Scenario.plugin0 w
      = (Ok (completionDone (Scenario.mutationView
                               (Scenario.applyInput w (stateInput (Some "st-done"))
                                                    Scenario.issue1))), p', w3) /\
    (t_status <$> taskCache p' !! "id-1") = Some completed /\
    head (Scenario.w_log w3)
      = Some (Scenario.CCommentCreate "id-1" "Task completed by ralph-tui: tests pass").
Proof.
  intros states w.
  edestruct (proj2 (completeTask_with_reason Scenario.service "id-1" "tests pass"
                      Scenario.plugin0 w {| apiKey := "lin_api_key" |} states
                      (with_stateCache {[ "team-1" := states ]} Scenario.plugin0)
                      (Scenario.logged (Scenario.CTeam "team-1") w)
                      _ _ eq_refl ltac:(discriminate) eq_refl eq_refl eq_refl))
    as [p' [Hrun Hcache]]; [reflexivity |].
  eexists p', _. split; [exact Hrun |].
  split; [rewrite Hcache; reflexivity | reflexivity].
Defined.

Lemma claimTask_then_no_conflict_witness :
  let states := [Scenario.todo; Scenario.doing] in
  let w := Scenario.world [Scenario.issue1] states false false in
  exists task p' w2,
    claimTask Scenario.service "id-1" Scenario.plugin0 w = (Ok (Some task), p', w2) /\
    t_status task = in_progress /\
    detectConflict Scenario.service "id-1" p' w2
      = (Ok None, p', Scenario.logged (Scenario.CIssue "id-1") w2).
Proof.
  intros states w.
  edestruct (claimTask_then_no_conflict Scenario.service "id-1" Scenario.plugin0 w
               {| apiKey := "lin_api_key" |} states
               (with_stateCache {[ "team-1" := states ]} Scenario.plugin0)
               (Scenario.logged (Scenario.CTeam "team-1") w)
               Scenario.doing _ _ eq_refl ltac:(discriminate) eq_refl eq_refl eq_refl)
    as [p' [Hrun [_ Hclean]]].
  eexists _, p', _. split; [exact Hrun |]. split; [reflexivity |].
  apply (Hclean _ (Scenario.applyInput w (claimInput (Some "st-doing") "user-1")
                                       Scenario.issue1)); reflexivity.
Defined.
